(** * Personal Finance Tracker: a shallow embedding of
      [personal_finance_tracker.py] and the properties of its query,
      aggregation and persistence functions.

    Modelling conventions.
    - A Python [float] amount is an exact rational ([Q]) in the first part:
      sums and comparisons are the exact ones, and equality of amounts is
      [Qeq] ([==]).  The properties that depend on rounding or on NaN are
      stated in the module [Float64], where an amount is an IEEE double
      (the primitive [float]); [monthly_spending], [search_transactions]
      and [filter_by_category] are modelled there only.
    - A Python [str] is a [string]; [int] is [Z].
    - A call that can raise returns an [outcome]: [Ret v] or [Raise e]. *)

From Stdlib Require Import ZArith QArith Qabs List String Ascii Bool Lia Lqa.
From Stdlib Require Import Sorting.Sorted Sorting.Permutation Setoid Morphisms.
From Stdlib Require Import Floats.
Import ListNotations.

Open Scope string_scope.
Open Scope Z_scope.
Open Scope Q_scope.

(** ** Exceptions and outcomes *)

Inductive exn : Type :=
| OSError
| JSONDecodeError
| UnicodeDecodeError
| KeyError
| ValueError
| TypeError
| AttributeError.

Inductive outcome (A : Type) : Type :=
| Ret (a : A)
| Raise (e : exn).

Arguments Ret {A} a.
Arguments Raise {A} e.

Definition bind {A B : Type} (m : outcome A) (k : A -> outcome B) : outcome B :=
  match m with
  | Ret a => k a
  | Raise e => Raise e
  end.

Notation "x <- m ;; k" := (bind m (fun x => k))
  (at level 61, m at next level, right associativity).

(** [[f(x) for x in l]] where [f] may raise: the first failure aborts. *)
Fixpoint mapM {A B : Type} (f : A -> outcome B) (l : list A)
    : outcome (list B) :=
  match l with
  | [] => Ret []
  | x :: l' => y <- f x ;; ys <- mapM f l' ;; Ret (y :: ys)
  end.

(** ** The data model *)

Record Transaction : Type := mkTransaction {
  id : Z;
  date : string;
  amount : Q;
  category : string;
  ttype : string;
  description : string
}.

(** ** Comparisons on amounts, as booleans *)

Definition Qltb (x y : Q) : bool :=
  match x ?= y with Lt => true | _ => false end.

Definition Qgeb (x y : Q) : bool := Qle_bool y x.

(** Truth value of a number: non-zero. *)
Definition Qtruthy (x : Q) : bool := negb (Qeq_bool x 0).

(** [sum(...)]: a left fold starting from 0. *)
Definition sum (l : list Q) : Q := fold_left Qplus l 0.

(** ** Reports *)

Definition balance_summary (transactions : list Transaction) : Q * Q * Q :=
  let income :=
    sum (map amount
           (filter (fun t => String.eqb (ttype t) "income") transactions)) in
  let expenses_pos :=
    sum (map amount
           (filter (fun t => String.eqb (ttype t) "expense"
                             && Qgeb (amount t) 0)
                   transactions)) in
  let expenses_neg :=
    sum (map (fun t => - amount t)
           (filter (fun t => String.eqb (ttype t) "expense"
                             && Qltb (amount t) 0)
                   transactions)) in
  let other_neg_expenses :=
    sum (map (fun t => - amount t)
           (filter (fun t => negb (String.eqb (ttype t) "income")
                             && Qltb (amount t) 0)
                   transactions)) in
  let expenses := expenses_pos + expenses_neg in
  let expenses :=
    if Qtruthy other_neg_expenses then expenses + other_neg_expenses
    else expenses in
  let savings := income - expenses in
  (income, expenses, savings).

Definition bs_income (r : Q * Q * Q) : Q := fst (fst r).
Definition bs_expenses (r : Q * Q * Q) : Q := snd (fst r).
Definition bs_savings (r : Q * Q * Q) : Q := snd r.

(** The collection of the self test: a salary and a grocery bill recorded
    with a negative amount. *)
Definition txs2 : list Transaction :=
  [ mkTransaction 1 "2025-01-01" 1000 "Salary" "income" "Pay";
    mkTransaction 2 "2025-01-02" (-200) "Groceries" "expense" "Food" ].

(** ** Strings *)

(** [s.lower()] on the letters A-Z. *)
Definition lower_ascii (c : ascii) : ascii :=
  let n := nat_of_ascii c in
  if ((65 <=? n) && (n <=? 90))%nat then ascii_of_nat (n + 32) else c.

Fixpoint lower (s : string) : string :=
  match s with
  | EmptyString => EmptyString
  | String c s' => String (lower_ascii c) (lower s')
  end.

(** ** Calendar values

    [datetime.strptime(s, "%Y-%m-%d")] yields a [datetime] whose time of day
    is midnight, so a value is a year, a month and a day, compared
    lexicographically. *)

Record datetime : Type := mkDate { year : Z; month : Z; day : Z }.

Definition dt_ltb (a b : datetime) : bool :=
  ((year a <? year b)
   || ((year a =? year b)
       && ((month a <? month b)
           || ((month a =? month b) && (day a <? day b)))))%Z.

(** ** Sorting: the builtin [sorted]

    [sorted(xs, key=f, reverse=r)] computes the key of every element first
    (a key function that raises aborts the call), sorts the decorated list
    with a stable sort that only uses [<] on keys, and returns the elements.
    With [reverse=True] the list is reversed before and after the stable
    sort, so that equal keys keep their original order in the result. *)

Fixpoint insert_by {K T : Type} (ltb : K -> K -> bool)
    (x : K * T) (l : list (K * T)) : list (K * T) :=
  match l with
  | [] => [x]
  | y :: l' => if ltb (fst y) (fst x) then y :: insert_by ltb x l' else x :: l
  end.

Definition stable_sort {K T : Type} (ltb : K -> K -> bool)
    (l : list (K * T)) : list (K * T) :=
  fold_right (insert_by ltb) [] l.

Definition sort_decorated {K T : Type} (ltb : K -> K -> bool) (reverse : bool)
    (dec : list (K * T)) : list T :=
  map snd (if reverse then rev (stable_sort ltb (rev dec))
           else stable_sort ltb dec).

Definition sorted {K T : Type} (ltb : K -> K -> bool) (keyfn : T -> outcome K)
    (reverse : bool) (l : list T) : outcome (list T) :=
  keys <- mapM keyfn l ;;
  Ret (sort_decorated ltb reverse (combine keys l)).

(** ** Core data operations *)

Definition next_id (transactions : list Transaction) : Z :=
  (match map id transactions with
   | [] => 0
   | x :: xs => fold_left Z.max xs x
   end + 1)%Z.

(** [add_transaction] appends to the list it is given; here it returns the
    new record and the list after the call. *)
Definition add_transaction (transactions : list Transaction) (date : string)
    (amount : Q) (category ttype description : string)
    : Transaction * list Transaction :=
  let tid := next_id transactions in
  let tx := mkTransaction tid date amount category ttype description in
  (tx, (transactions ++ [tx])%list).

Definition find_by_id (transactions : list Transaction) (tid : Z)
    : option Transaction :=
  find (fun t => (id t =? tid)%Z) transactions.

Definition filter_expenses_over (transactions : list Transaction)
    (amount_threshold : Q) : list Transaction :=
  filter (fun t => String.eqb (ttype t) "expense"
                   && Qltb amount_threshold (Qabs (amount t)))
         transactions.

(** [sort_key == 'date'] for an optional string. *)
Definition key_is (sort_key : option string) (name : string) : bool :=
  match sort_key with
  | Some k => String.eqb k name
  | None => false
  end.

(** Truth value of an optional string: present and not empty. *)
Definition truthy (o : option string) : option string :=
  match o with
  | Some s => if String.eqb s EmptyString then None else Some s
  | None => None
  end.

Section Queries.

(** The date parser of the standard library; [None] is its [ValueError]. *)
Variable strptime : string -> option datetime.

Definition to_dt (s : string) : outcome datetime :=
  match strptime s with
  | Some d => Ret d
  | None => Raise ValueError
  end.

Definition list_transactions (transactions : list Transaction)
    (sort_key : option string) (reverse : bool)
    : outcome (list Transaction) :=
  if key_is sort_key "date" then
    sorted dt_ltb (fun t => to_dt (date t)) reverse transactions
  else if key_is sort_key "amount" then
    sorted Qltb (fun t => Ret (amount t)) reverse transactions
  else if key_is sort_key "category" then
    sorted String.ltb (fun t => Ret (lower (category t))) reverse transactions
  else
    sorted Z.ltb (fun t => Ret (id t)) reverse transactions.

(** The loop of [filter_by_date_range]; [res] is the list built so far. *)
Fixpoint filter_by_date_range_loop (start_date end_date : option string)
    (transactions res : list Transaction) : outcome (list Transaction) :=
  match transactions with
  | [] => Ret res
  | t :: rest =>
      dt <- to_dt (date t) ;;
      before <- match truthy start_date with
                | Some s => sd <- to_dt s ;; Ret (dt_ltb dt sd)
                | None => Ret false
                end ;;
      if before then
        filter_by_date_range_loop start_date end_date rest res
      else
        after <- match truthy end_date with
                 | Some e => ed <- to_dt e ;; Ret (dt_ltb ed dt)
                 | None => Ret false
                 end ;;
        if after then
          filter_by_date_range_loop start_date end_date rest res
        else
          filter_by_date_range_loop start_date end_date rest (res ++ [t])
  end.

Definition filter_by_date_range (transactions : list Transaction)
    (start_date end_date : option string) : outcome (list Transaction) :=
  filter_by_date_range_loop start_date end_date transactions [].

End Queries.

(** ** Persistence

    The text layer of JSON is not modelled: a readable file holds bytes that
    are not UTF-8, text that [json.load] rejects, or a JSON document, which
    is identified with the value [json.load] returns for it and which
    [json.dump] writes for that value. *)

#[local] Set Warnings "-register-all".

Inductive json : Type :=
| JNull
| JBool (b : bool)
| JInt (z : Z)
| JFloat (q : Q)
| JString (s : string)
| JArray (l : list json)
| JObject (m : list (string * json)).

Inductive content : Type :=
| NotUtf8
| NotJson
| Doc (j : json).

(** An existing path: opening it for reading fails, or it has a content.
    A path stands for the file it names: two different paths are two
    different files. *)
Inductive file : Type :=
| Unreadable
| Readable (c : content).

Record world : Type := mkWorld {
  files : string -> option file;
  (** the write test in the directory of a path succeeds *)
  probe_ok : string -> bool;
  (** opening a path for writing, and writing to it, succeeds *)
  write_ok : string -> bool
}.

Definition put_file (w : world) (path : string) (f : option file) : world :=
  mkWorld (fun p => if String.eqb p path then f else files w p)
          (probe_ok w) (write_ok w).

(** The one-line diagnostics that are printed. *)
Inductive message : Type :=
| InfoSavedElsewhere (filename target : string)
| WarnSave (target : string)
| WarnRead (path : string)
| WarnJson (path : string).

Fixpoint assoc (m : list (string * json)) (k : string) : option json :=
  match m with
  | [] => None
  | (k', v) :: m' => if String.eqb k' k then Some v else assoc m' k
  end.

(** [d[k]] *)
Definition getitem (d : json) (k : string) : outcome json :=
  match d with
  | JObject m => match assoc m k with
                 | Some v => Ret v
                 | None => Raise KeyError
                 end
  | _ => Raise TypeError
  end.

(** [d.get(k, default)] *)
Definition get (d : json) (k : string) (default : json) : outcome json :=
  match d with
  | JObject m => match assoc m k with
                 | Some v => Ret v
                 | None => Ret default
                 end
  | _ => Raise AttributeError
  end.

(** [for d in data] *)
Definition iter (data : json) : outcome (list json) :=
  match data with
  | JArray l => Ret l
  | JObject m => Ret (map (fun kv => JString (fst kv)) m)
  | JString s => Ret (map (fun c => JString (String c EmptyString))
                          (list_ascii_of_string s))
  | _ => Raise TypeError
  end.

Definition Qtrunc (q : Q) : Z := Z.quot (Qnum q) (Zpos (Qden q)).

Section Persistence.

(** The conversions of text to numbers and of values to text, of the
    language; [None] is their [ValueError]. *)
Variable int_of_str : string -> option Z.
Variable float_of_str : string -> option Q.
Variable repr : json -> string.

(** The module constant, and the two paths computed with [os.path]:
    the file of the same base name in the temporary directory, and the
    write-test file in the directory of a path. *)
Variable DEFAULT_SAVE_FILE : string.
Variable temp_path : string -> string.
Variable probe_path : string -> string.

Definition py_int (v : json) : outcome Z :=
  match v with
  | JInt z => Ret z
  | JBool b => Ret (if b then 1 else 0)%Z
  | JFloat q => Ret (Qtrunc q)
  | JString s => match int_of_str s with
                 | Some z => Ret z
                 | None => Raise ValueError
                 end
  | _ => Raise TypeError
  end.

Definition py_float (v : json) : outcome Q :=
  match v with
  | JInt z => Ret (inject_Z z)
  | JBool b => Ret (if b then 1 else 0)
  | JFloat q => Ret q
  | JString s => match float_of_str s with
                 | Some q => Ret q
                 | None => Raise ValueError
                 end
  | _ => Raise TypeError
  end.

Definition py_str (v : json) : string :=
  match v with
  | JString s => s
  | _ => repr v
  end.

Definition to_dict (t : Transaction) : json :=
  JObject [ ("id", JInt (id t));
            ("date", JString (date t));
            ("amount", JFloat (amount t));
            ("category", JString (category t));
            ("ttype", JString (ttype t));
            ("description", JString (description t)) ].

Definition from_dict (d : json) : outcome Transaction :=
  i <- (v <- getitem d "id" ;; py_int v) ;;
  dt <- (v <- getitem d "date" ;; Ret (py_str v)) ;;
  a <- (v <- getitem d "amount" ;; py_float v) ;;
  c <- (v <- get d "category" (JString EmptyString) ;; Ret (py_str v)) ;;
  ty <- (v <- get d "ttype" (JString "expense") ;; Ret (py_str v)) ;;
  de <- (v <- get d "description" (JString EmptyString) ;; Ret (py_str v)) ;;
  Ret (mkTransaction i dt a c ty de).

(** The write test either succeeds, and its file is removed again, or
    fails, and the temporary directory is used. *)
Definition _preferred_writable_path (filename : string) (w : world)
    : string * world :=
  if probe_ok w filename then
    (filename, put_file w (probe_path filename) None)
  else
    (temp_path filename, w).

Definition save_transactions (transactions : list Transaction)
    (filename : string) (w : world) : bool * world * list message :=
  let (target, w1) := _preferred_writable_path filename w in
  if write_ok w1 target then
    let w2 :=
      put_file w1 target
        (Some (Readable (Doc (JArray (map to_dict transactions))))) in
    (true, w2,
     if negb (String.eqb target filename)
     then [InfoSavedElsewhere filename target] else [])
  else
    (false, w1, [WarnSave target]).

Definition candidates (filename : string) : list string :=
  let c := [filename] in
  let c := if negb (String.eqb filename DEFAULT_SAVE_FILE)
           then (c ++ [DEFAULT_SAVE_FILE])%list else c in
  let fallback := temp_path filename in
  if existsb (String.eqb fallback) c then c else (c ++ [fallback])%list.

Definition open_read (w : world) (path : string) : outcome content :=
  match files w path with
  | Some (Readable c) => Ret c
  | _ => Raise OSError
  end.

Definition json_load (c : content) : outcome json :=
  match c with
  | NotUtf8 => Raise UnicodeDecodeError
  | NotJson => Raise JSONDecodeError
  | Doc j => Ret j
  end.

(** The body of the [try] for one candidate that exists. *)
Definition read_candidate (w : world) (path : string)
    : outcome (list Transaction) :=
  c <- open_read w path ;;
  data <- json_load c ;;
  ds <- iter data ;;
  mapM from_dict ds.

(** The loop over the candidates, with its two [except] clauses; [log]
    collects the warnings printed so far. *)
Fixpoint load_loop (w : world) (paths : list string) (log : list message)
    : outcome (list Transaction) * list message :=
  match paths with
  | [] => (Ret [], log)
  | path :: rest =>
      match files w path with
      | None => load_loop w rest log
      | Some _ =>
          match read_candidate w path with
          | Ret l => (Ret l, log)
          | Raise OSError => load_loop w rest (log ++ [WarnRead path])
          | Raise JSONDecodeError => load_loop w rest (log ++ [WarnJson path])
          | Raise e => (Raise e, log)
          end
      end
  end.

Definition load_transactions (filename : string) (w : world)
    : outcome (list Transaction) * list message :=
  load_loop w (candidates filename) [].

End Persistence.

(** ** The collection as a shared object

    The caller holds a reference to a list object; [add_transaction] appends
    to that object, [sorted] builds a new one.  A store maps references
    (positions) to list objects. *)

Definition store : Type := list (list Transaction).
Definition ref : Type := nat.

Definition deref (s : store) (r : ref) : option (list Transaction) :=
  nth_error s r.

Definition alloc (l : list Transaction) (s : store) : ref * store :=
  (List.length s, (s ++ [l])%list).

Fixpoint assign (s : store) (r : ref) (l : list Transaction) : store :=
  match s, r with
  | [], _ => []
  | _ :: s', O => l :: s'
  | x :: s', S r' => x :: assign s' r' l
  end.

Definition add_transaction_in (r : ref) (date : string) (amount : Q)
    (category ttype description : string) (s : store)
    : option Transaction * store :=
  match deref s r with
  | None => (None, s)
  | Some transactions =>
      let (tx, transactions') :=
        add_transaction transactions date amount category ttype description in
      (Some tx, assign s r transactions')
  end.

Definition list_transactions_in (strptime : string -> option datetime)
    (r : ref) (sort_key : option string) (reverse : bool) (s : store)
    : option (outcome ref) * store :=
  match deref s r with
  | None => (None, s)
  | Some transactions =>
      match list_transactions strptime transactions sort_key reverse with
      | Ret l => let (r', s') := alloc l s in (Some (Ret r'), s')
      | Raise e => (Some (Raise e), s)
      end
  end.

(** ** A date parser to run the functions with

    It accepts the zero-padded form [YYYY-MM-DD] of a date of the calendar. *)

Definition digit (c : ascii) : option Z :=
  let n := nat_of_ascii c in
  if ((48 <=? n) && (n <=? 57))%nat then Some (Z.of_nat (n - 48)) else None.

Definition is_leap (y : Z) : bool :=
  ((y mod 4 =? 0) && (negb (y mod 100 =? 0) || (y mod 400 =? 0)))%Z.

Definition days_in_month (y m : Z) : Z :=
  (if m =? 2 then (if is_leap y then 29 else 28)
   else if (m =? 4) || (m =? 6) || (m =? 9) || (m =? 11) then 30
   else 31)%Z.

Definition strptime_iso (s : string) : option datetime :=
  match list_ascii_of_string s with
  | [y1; y2; y3; y4; h1; m1; m2; h2; d1; d2] =>
      match digit y1, digit y2, digit y3, digit y4,
            digit m1, digit m2, digit d1, digit d2 with
      | Some a, Some b, Some c, Some d, Some e, Some f, Some g, Some h =>
          let y := (1000 * a + 100 * b + 10 * c + d)%Z in
          let m := (10 * e + f)%Z in
          let dd := (10 * g + h)%Z in
          if Ascii.eqb h1 "-" && Ascii.eqb h2 "-"
             && (1 <=? y)%Z && (1 <=? m)%Z && (m <=? 12)%Z
             && (1 <=? dd)%Z && (dd <=? days_in_month y m)%Z
          then Some (mkDate y m dd) else None
      | _, _, _, _, _, _, _, _ => None
      end
  | _ => None
  end.

(** ** The demo data *)

Definition sample_data : list Transaction :=
  let add txs d a c ty de := snd (add_transaction txs d a c ty de) in
  let txs := [] in
  let txs := add txs "2025-01-03" 3000.00 "Salary" "income" "Monthly salary" in
  let txs := add txs "2025-01-05" 45.20 "Groceries" "expense" "Walmart shopping" in
  let txs := add txs "2025-01-10" 120.00 "Utilities" "expense" "Electricity bill" in
  let txs := add txs "2025-02-01" 3000.00 "Salary" "income" "Monthly salary" in
  let txs := add txs "2025-02-12" 250.00 "Shopping" "expense" "New jacket" in
  let txs := add txs "2025-02-20" 12.00 "Coffee" "expense" "Coffee shop" in
  let txs := add txs "2025-03-01" 3000.00 "Salary" "income" "Monthly salary" in
  let txs := add txs "2025-03-14" 600.00 "Rent" "expense" "March rent" in
  txs.

(** ** Totals, as the specification words them

    The total of [f] over the records that satisfy [p]. *)

Definition is_income (t : Transaction) : bool := String.eqb (ttype t) "income".
Definition is_expense (t : Transaction) : bool := String.eqb (ttype t) "expense".
Definition is_negative (t : Transaction) : bool := Qltb (amount t) 0.
Definition magnitude (t : Transaction) : Q := - amount t.

Fixpoint total_where (p : Transaction -> bool) (f : Transaction -> Q)
    (l : list Transaction) : Q :=
  match l with
  | [] => 0
  | t :: l' => (if p t then f t else 0) + total_where p f l'
  end.

(** ** Worlds to run the persistence functions in

    File names without a directory; the temporary directory is [/tmp]. *)

Definition demo_default : string := "/tmp/transactions.json".
Definition demo_temp_path (filename : string) : string := "/tmp/" ++ filename.
Definition demo_probe_path (filename : string) : string :=
  "./.pft_write_test".

(** Nothing on disk, everything writable. *)
Definition empty_world : world :=
  mkWorld (fun _ => None) (fun _ => true) (fun _ => true).

(** [data.json] holds the document [[{"id": 1}]]: well-formed JSON, but a
    record without a date. *)
Definition world_missing_key : world :=
  put_file empty_world "data.json"
    (Some (Readable (Doc (JArray [JObject [("id", JInt 1)]])))).

(** [data.json] holds bytes that are not UTF-8. *)
Definition world_not_utf8 : world :=
  put_file empty_world "data.json" (Some (Readable NotUtf8)).

(** [data.json] holds the document [[1, 2]]: an array of numbers. *)
Definition world_not_records : world :=
  put_file empty_world "data.json"
    (Some (Readable (Doc (JArray [JInt 1; JInt 2])))).

(** [data.json] holds text that is not JSON, the default file cannot be
    read, and the file of the temporary directory is absent. *)
Definition world_recoverable : world :=
  put_file (put_file empty_world "data.json" (Some (Readable NotJson)))
    demo_default (Some Unreadable).

(** The candidates that the two [except] clauses of [load_transactions]
    recover from: absent, unreadable, or not JSON. *)
Definition harmless (w : world) (path : string) : Prop :=
  files w path = None
  \/ files w path = Some Unreadable
  \/ files w path = Some (Readable NotJson).

(** ** Selections, as the specification words them

    [Selects P l r]: [r] holds exactly the records of [l] that satisfy [P],
    as often and in the order in which they occur in [l]. *)

Inductive Selects {T : Type} (P : T -> Prop) : list T -> list T -> Prop :=
| Selects_nil : Selects P [] []
| Selects_keep x l r : P x -> Selects P l r -> Selects P (x :: l) (x :: r)
| Selects_drop x l r : ~ P x -> Selects P l r -> Selects P (x :: l) r.

(** ** Orders

    What the stable sort needs of [<] on keys: it is asymmetric, and a key
    that is neither below nor above another is ordered like it. *)

Record strict_weak_order {T : Type} (lt : T -> T -> bool) : Prop := {
  swo_asym : forall a b, lt a b = true -> lt b a = false;
  swo_cotrans : forall a b c, lt a c = true -> lt a b = true \/ lt b c = true
}.

(** The same sort on the elements themselves, for an order on elements. *)

Fixpoint insert_elt {T : Type} (lt : T -> T -> bool) (x : T) (l : list T)
    : list T :=
  match l with
  | [] => [x]
  | y :: l' => if lt y x then y :: insert_elt lt x l' else x :: l
  end.

Definition sort_elts {T : Type} (lt : T -> T -> bool) (l : list T) : list T :=
  fold_right (insert_elt lt) [] l.

Definition sort_with {T : Type} (lt : T -> T -> bool) (reverse : bool)
    (l : list T) : list T :=
  if reverse then rev (sort_elts lt (rev l)) else sort_elts lt l.

(** Ascending: no element is above a later one.  Descending: no element is
    below a later one.  Strictly ascending: every element is below the later
    ones.  Distinct keys: of any two elements one is below the other. *)

Definition ascending {T : Type} (lt : T -> T -> bool) : list T -> Prop :=
  StronglySorted (fun a b => lt b a = false).

Definition descending {T : Type} (lt : T -> T -> bool) : list T -> Prop :=
  StronglySorted (fun a b => lt a b = false).

Definition strictly_ascending {T : Type} (lt : T -> T -> bool)
    : list T -> Prop :=
  StronglySorted (fun a b => lt a b = true).

Definition distinct_keys {T : Type} (lt : T -> T -> bool) : list T -> Prop :=
  ForallOrdPairs (fun a b => lt a b = true \/ lt b a = true).

(** The order of two records under a sort key.  The date of a record that
    does not parse has no key; [list_transactions] raises on such a record,
    and a fixed value stands for its key here. *)

Definition date_key (strptime : string -> option datetime) (t : Transaction)
    : datetime :=
  match strptime (date t) with
  | Some d => d
  | None => mkDate 0 0 0
  end.

Definition key_lt (strptime : string -> option datetime)
    (sort_key : option string) (a b : Transaction) : bool :=
  if key_is sort_key "date" then
    dt_ltb (date_key strptime a) (date_key strptime b)
  else if key_is sort_key "amount" then Qltb (amount a) (amount b)
  else if key_is sort_key "category" then
    String.ltb (lower (category a)) (lower (category b))
  else Z.ltb (id a) (id b).

Definition same_key (strptime : string -> option datetime)
    (sort_key : option string) (a b : Transaction) : bool :=
  negb (key_lt strptime sort_key a b) && negb (key_lt strptime sort_key b a).

(** ** Text search, and deleting *)

(** [needle in hay] on strings: [needle] occurs in [hay]. *)
Fixpoint str_in (needle hay : string) : bool :=
  String.prefix needle hay
  || match hay with
     | EmptyString => false
     | String _ hay' => str_in needle hay'
     end.

(** [==] on records: the fields are compared one by one. *)
Definition tx_eqb (a b : Transaction) : bool :=
  (id a =? id b)%Z
  && String.eqb (date a) (date b)
  && Qeq_bool (amount a) (amount b)
  && String.eqb (category a) (category b)
  && String.eqb (ttype a) (ttype b)
  && String.eqb (description a) (description b).

(** [l.remove(x)] drops the first element equal to [x]; [None] is the
    [ValueError] of a list without such an element. *)
Fixpoint list_remove (x : Transaction) (l : list Transaction)
    : option (list Transaction) :=
  match l with
  | [] => None
  | y :: l' =>
      if tx_eqb y x then Some l'
      else match list_remove x l' with
           | Some r => Some (y :: r)
           | None => None
           end
  end.

(** The statements of the branch [choice == '12'] of [menu] that follow the
    reading of the id (the lookup and the removal): the list after them, and
    whether a record was deleted.  The reading of the id, which can end the
    branch with an exception of its own, is not part of it. *)
Definition menu_delete (transactions : list Transaction) (tid : Z)
    : outcome (list Transaction * bool) :=
  match find_by_id transactions tid with
  | Some t =>
      match list_remove t transactions with
      | Some l => Ret (l, true)
      | None => Raise ValueError
      end
  | None => Ret (transactions, false)
  end.

(** The warning that a candidate of [load_transactions] causes when it is
    skipped. *)
Definition warning_of (w : world) (path : string) : list message :=
  match files w path with
  | Some Unreadable => [WarnRead path]
  | Some (Readable NotJson) => [WarnJson path]
  | _ => []
  end.

(** ** Date ranges, as a condition on the parsed dates

    [bound_parses strptime b lo]: the bound [b] is absent or empty and [lo]
    is [None], or it parses to the date that [lo] holds.  [within lo hi d]:
    [d] is neither before [lo] nor after [hi]. *)

Definition bound_parses (strptime : string -> option datetime)
    (b : option string) (lo : option datetime) : Prop :=
  match truthy b with
  | None => lo = None
  | Some s => lo <> None /\ strptime s = lo
  end.

Definition within (lo hi : option datetime) (d : datetime) : bool :=
  negb (match lo with Some sd => dt_ltb d sd | None => false end)
  && negb (match hi with Some ed => dt_ltb ed d | None => false end).

(** The value of a key of an object, or a default. *)
Definition value_or (o : option json) (default : json) : json :=
  match o with
  | Some v => v
  | None => default
  end.

(** * The program on IEEE doubles

    The same functions with an amount as a binary64 number, with its
    rounding, its infinities and its NaN.  The builtin [sum] on numbers,
    [str.lower] and the date parser are parameters. *)

#[local] Set Warnings "-inexact-float".

Module Float64.

Record Transaction : Type := mkTransaction {
  id : Z;
  date : string;
  amount : float;
  category : string;
  ttype : string;
  description : string
}.

(** Truth value of a number: not equal to zero (NaN is true). *)
Definition truthy (x : float) : bool := negb (PrimFloat.eqb x 0%float).

(** The numbers of a list added one after the other, from left to right,
    starting from 0. *)
Definition left_sum (l : list float) : float :=
  fold_left PrimFloat.add l 0%float.

Section Program.

Variable sum : list float -> float.
Variable strptime : string -> option datetime.
Variable lower : string -> string.

(** The four lists of numbers that [balance_summary] sums. *)
Definition income_amounts (transactions : list Transaction) : list float :=
  map amount (filter (fun t => String.eqb (ttype t) "income") transactions).

Definition expense_amounts_pos (transactions : list Transaction)
    : list float :=
  map amount
    (filter (fun t => String.eqb (ttype t) "expense"
                      && PrimFloat.leb 0%float (amount t))
            transactions).

Definition expense_magnitudes_neg (transactions : list Transaction)
    : list float :=
  map (fun t => PrimFloat.opp (amount t))
    (filter (fun t => String.eqb (ttype t) "expense"
                      && PrimFloat.ltb (amount t) 0%float)
            transactions).

Definition other_magnitudes_neg (transactions : list Transaction)
    : list float :=
  map (fun t => PrimFloat.opp (amount t))
    (filter (fun t => negb (String.eqb (ttype t) "income")
                      && PrimFloat.ltb (amount t) 0%float)
            transactions).

Definition balance_summary (transactions : list Transaction)
    : float * float * float :=
  let income := sum (income_amounts transactions) in
  let expenses_pos := sum (expense_amounts_pos transactions) in
  let expenses_neg := sum (expense_magnitudes_neg transactions) in
  let other_neg_expenses := sum (other_magnitudes_neg transactions) in
  let expenses := PrimFloat.add expenses_pos expenses_neg in
  let expenses :=
    if truthy other_neg_expenses
    then PrimFloat.add expenses other_neg_expenses
    else expenses in
  let savings := PrimFloat.sub income expenses in
  (income, expenses, savings).

Definition to_dt (s : string) : outcome datetime :=
  match strptime s with
  | Some d => Ret d
  | None => Raise ValueError
  end.

Definition list_transactions (transactions : list Transaction)
    (sort_key : option string) (reverse : bool)
    : outcome (list Transaction) :=
  if key_is sort_key "date" then
    sorted dt_ltb (fun t => to_dt (date t)) reverse transactions
  else if key_is sort_key "amount" then
    sorted PrimFloat.ltb (fun t => Ret (amount t)) reverse transactions
  else if key_is sort_key "category" then
    sorted String.ltb (fun t => Ret (lower (category t))) reverse transactions
  else
    sorted Z.ltb (fun t => Ret (id t)) reverse transactions.

Definition search_transactions (transactions : list Transaction)
    (keyword : string) : list Transaction :=
  let kw := lower keyword in
  filter (fun t => str_in kw (lower (description t))
                   || str_in kw (lower (category t)))
         transactions.

Definition filter_expenses_over (transactions : list Transaction)
    (amount_threshold : float) : list Transaction :=
  filter (fun t => String.eqb (ttype t) "expense"
                   && PrimFloat.ltb amount_threshold (PrimFloat.abs (amount t)))
         transactions.

Definition filter_by_category (transactions : list Transaction)
    (wanted : string) : list Transaction :=
  let c := lower wanted in
  filter (fun t => String.eqb (lower (category t)) c) transactions.

(** The order of two records under a sort key, with a fixed value for the
    key of a date that does not parse. *)

Definition date_key (t : Transaction) : datetime :=
  match strptime (date t) with
  | Some d => d
  | None => mkDate 0 0 0
  end.

Definition key_lt (sort_key : option string) (a b : Transaction) : bool :=
  if key_is sort_key "date" then dt_ltb (date_key a) (date_key b)
  else if key_is sort_key "amount" then PrimFloat.ltb (amount a) (amount b)
  else if key_is sort_key "category" then
    String.ltb (lower (category a)) (lower (category b))
  else Z.ltb (id a) (id b).

Definition same_key (sort_key : option string) (a b : Transaction) : bool :=
  negb (key_lt sort_key a b) && negb (key_lt sort_key b a).

End Program.

(** The amounts are the sort key and one of them is NaN: then [<] does not
    order the keys, and the result of [sorted] is a permutation about which
    nothing more is said here. *)
Definition nan_keys (sort_key : option string) (transactions : list Transaction)
    : Prop :=
  key_is sort_key "amount" = true
  /\ Exists (fun t => PrimFloat.is_nan (amount t) = true) transactions.

Definition is_expense (t : Transaction) : bool :=
  String.eqb (ttype t) "expense".


(** An expense of -0.10, with and without a transfer of -1.00 after it. *)
Definition txs_before_transfer : list Transaction :=
  [ mkTransaction 1 "2025-01-02" (-0.1)%float "Sweets" "expense" "Gum" ].

Definition the_transfer : Transaction :=
  mkTransaction 2 "2025-01-03" (-1)%float "Bank" "transfer" "To savings".

(** Two salaries of the same amount around a smaller expense. *)
Definition txs_ties : list Transaction :=
  [ mkTransaction 1 "2025-01-03" 3000%float "Salary" "income" "January";
    mkTransaction 2 "2025-01-05" 45.2%float "Groceries" "expense" "Food";
    mkTransaction 3 "2025-02-01" 3000%float "Salary" "income" "February" ].

(** *** Monthly totals

    A [dict] keeps its keys in insertion order; assigning to an existing key
    keeps the key's position. *)

Definition dict : Type := list (string * float).

Fixpoint dict_get (d : dict) (k : string) (default : float) : float :=
  match d with
  | [] => default
  | (k', v) :: d' => if String.eqb k' k then v else dict_get d' k default
  end.

Fixpoint dict_set (d : dict) (k : string) (v : float) : dict :=
  match d with
  | [] => [(k, v)]
  | (k', v') :: d' =>
      if String.eqb k' k then (k', v) :: d' else (k', v') :: dict_set d' k v
  end.

(** [dict(items)] *)
Definition dict_of_items (items : list (string * float)) : dict :=
  fold_left (fun d kv => dict_set d (fst kv) (snd kv)) items [].

(** [<] on [(key, value)] tuples. *)
Definition item_ltb (a b : string * float) : bool :=
  if String.eqb (fst a) (fst b) then PrimFloat.ltb (snd a) (snd b)
  else String.ltb (fst a) (fst b).

(** The body of the loop of [monthly_spending]; [t.date[:7]] is
    [substring 0 7 (date t)], and the default [0] of [totals.get] is the
    double zero once it is added to a double. *)
Definition monthly_step (totals : dict) (t : Transaction) : dict :=
  if negb (String.eqb (ttype t) "expense") then totals
  else
    let month := substring 0 7 (date t) in
    dict_set totals month
      (PrimFloat.add (dict_get totals month 0%float) (PrimFloat.abs (amount t))).

Definition monthly_totals (transactions : list Transaction) : dict :=
  fold_left monthly_step transactions [].

Definition monthly_spending (transactions : list Transaction) : dict :=
  let totals := monthly_totals transactions in
  dict_of_items
    (sort_decorated item_ltb false (map (fun kv => (kv, kv)) totals)).

(** The absolute amounts of the expenses of a month, as the specification
    words them, in the order of the collection. *)
Definition month_expenses (m : string) (transactions : list Transaction)
    : list float :=
  map (fun t => PrimFloat.abs (amount t))
    (filter (fun t => String.eqb (ttype t) "expense"
                      && String.eqb (substring 0 7 (date t)) m)
            transactions).

(** Three expenses over two months. *)
Definition txs_months : list Transaction :=
  [ mkTransaction 1 "2025-01-05" 45.2%float "Groceries" "expense" "Food";
    mkTransaction 2 "2025-01-10" 120%float "Utilities" "expense" "Power";
    mkTransaction 3 "2025-02-12" 250%float "Rent" "expense" "Share" ].

End Float64.

(** ** The order of the doubles

    A number that is not NaN has a rank, a triple of integers, and [<] on
    such numbers is the lexicographic order of the ranks. *)

Definition sf_rank (x : spec_float) : Z * Z * Z :=
  match x with
  | S754_nan => (0, 0, 0)
  | S754_zero _ => (0, 0, 0)
  | S754_infinity true => (-2, 0, 0)
  | S754_infinity false => (2, 0, 0)
  | S754_finite true m e => (-1, - e, - Zpos m)
  | S754_finite false m e => (1, e, Zpos m)
  end%Z.

Definition lex_lt (a b : Z * Z * Z) : Prop :=
  let '(a1, a2, a3) := a in
  let '(b1, b2, b3) := b in
  (a1 < b1 \/ (a1 = b1 /\ (a2 < b2 \/ (a2 = b2 /\ a3 < b3))))%Z.

Definition sf_nan (x : spec_float) : bool :=
  match x with
  | S754_nan => true
  | _ => false
  end.

Definition rank (x : float) : Z * Z * Z := sf_rank (Prim2SF x).

(** [<] with NaN put after every number: it agrees with [<] on the numbers
    that are not NaN and orders all doubles. *)
Definition nan_last_ltb (a b : float) : bool :=
  if PrimFloat.is_nan a then false
  else if PrimFloat.is_nan b then true
  else PrimFloat.ltb a b.

Definition key_lt_total (strptime : string -> option datetime)
    (lower : string -> string) (sort_key : option string)
    (a b : Float64.Transaction) : bool :=
  if key_is sort_key "date" then
    dt_ltb (Float64.date_key strptime a) (Float64.date_key strptime b)
  else if key_is sort_key "amount" then
    nan_last_ltb (Float64.amount a) (Float64.amount b)
  else if key_is sort_key "category" then
    String.ltb (lower (Float64.category a)) (lower (Float64.category b))
  else Z.ltb (Float64.id a) (Float64.id b).

(** * Properties *)

(** ** Amounts *)

Lemma Qltb_lt (x y : Q) : Qltb x y = true <-> x < y.
Proof.
  unfold Qltb. rewrite Qlt_alt.
  destruct (x ?= y); split; intro H; congruence.
Qed.

Lemma Qltb_ge (x y : Q) : Qltb x y = false <-> y <= x.
Proof.
  rewrite <- Bool.not_true_iff_false, Qltb_lt. split.
  - apply Qnot_lt_le.
  - apply Qle_not_lt.
Qed.

Lemma Qgeb_ge (x y : Q) : Qgeb x y = true <-> y <= x.
Proof. unfold Qgeb. apply Qle_bool_iff. Qed.

Lemma Qgeb_negb_Qltb (x y : Q) : Qgeb x y = negb (Qltb x y).
Proof.
  destruct (Qltb x y) eqn:E; simpl.
  - apply Qltb_lt in E. apply Bool.not_true_iff_false.
    rewrite Qgeb_ge. now apply Qlt_not_le.
  - apply Qltb_ge in E. now apply Qgeb_ge.
Qed.

Lemma Qtruthy_false (x : Q) : Qtruthy x = false -> x == 0.
Proof.
  unfold Qtruthy. intro H. apply Bool.negb_false_iff in H.
  now apply Qeq_bool_iff.
Qed.

Lemma fold_left_Qplus_acc (l : list Q) (a : Q) :
  fold_left Qplus l a == a + sum l.
Proof.
  unfold sum. revert a.
  induction l as [|x l IH]; intro a; simpl.
  - ring.
  - rewrite (IH (a + x)), (IH (0 + x)). ring.
Qed.

Lemma sum_cons (x : Q) (l : list Q) : sum (x :: l) == x + sum l.
Proof.
  unfold sum at 1. simpl. rewrite fold_left_Qplus_acc. ring.
Qed.

Lemma sum_filter_total (p : Transaction -> bool) (f : Transaction -> Q)
    (l : list Transaction) :
  sum (map f (filter p l)) == total_where p f l.
Proof.
  induction l as [|t l IH]; simpl.
  - reflexivity.
  - destruct (p t); simpl.
    + rewrite sum_cons, IH. reflexivity.
    + rewrite IH. ring.
Qed.

(** ** balance_summary *)

(** The three components as totals: the magnitude of every negative record
    that is not an income is added on top of the normalised expenses. *)
Lemma balance_summary_totals (txs : list Transaction) :
  let r := balance_summary txs in
  bs_income r == total_where is_income amount txs /\
  bs_expenses r ==
    total_where (fun t => is_expense t && negb (is_negative t)) amount txs
    + total_where (fun t => is_expense t && is_negative t) magnitude txs
    + total_where (fun t => negb (is_income t) && is_negative t) magnitude txs /\
  bs_savings r == bs_income r - bs_expenses r.
Proof.
  unfold balance_summary, bs_income, bs_expenses, bs_savings; simpl.
  split; [|split].
  - apply sum_filter_total.
  - rewrite <- !sum_filter_total.
    assert (E : forall l,
      filter (fun t => String.eqb (ttype t) "expense" && Qgeb (amount t) 0) l =
      filter (fun t => is_expense t && negb (is_negative t)) l).
    { intro l. apply filter_ext. intro t. unfold is_expense, is_negative.
      now rewrite Qgeb_negb_Qltb. }
    rewrite E. unfold is_expense, is_negative, is_income, magnitude.
    match goal with
    | |- (if Qtruthy ?x then _ else _) == _ => destruct (Qtruthy x) eqn:T
    end.
    + reflexivity.
    + apply Qtruthy_false in T. rewrite T. ring.
  - reflexivity.
Qed.

(** C1, as the code has it: on the collection of the self test the magnitude
    of the negative expense is added twice, so that the expenses are 400 and
    the savings 600, not the 200 and 800 that the self test asserts. *)
Theorem balance_summary_txs2 :
  balance_summary txs2 = (1000, 400, 600) /\
  ~ bs_expenses (balance_summary txs2) == 200 /\
  ~ bs_savings (balance_summary txs2) == 800.
Proof.
  split; [reflexivity|]. split; intro H; vm_compute in H; discriminate H.
Qed.

(** ** The stable sort *)

Section SortTheory.

Context {T : Type}.
Variable lt : T -> T -> bool.
Hypothesis lt_swo : strict_weak_order lt.

(** Neither below nor above. *)
Let same (a b : T) : bool := negb (lt a b) && negb (lt b a).

Lemma lt_irrefl (a : T) : lt a a = false.
Proof.
  destruct (lt a a) eqn:E; [|reflexivity].
  pose proof (swo_asym lt lt_swo a a E). congruence.
Qed.

Lemma lt_trans (a b c : T) : lt a b = true -> lt b c = true -> lt a c = true.
Proof.
  intros Hab Hbc.
  destruct (swo_cotrans lt lt_swo a c b Hab) as [H|H]; [exact H|].
  pose proof (swo_asym lt lt_swo b c Hbc). congruence.
Qed.

Lemma not_lt_trans (a b c : T) :
  lt b a = false -> lt c b = false -> lt c a = false.
Proof.
  intros Hba Hcb. destruct (lt c a) eqn:E; [|reflexivity].
  destruct (swo_cotrans lt lt_swo c b a E); congruence.
Qed.

Lemma insert_elt_perm (x : T) (l : list T) :
  Permutation (insert_elt lt x l) (x :: l).
Proof.
  induction l as [|y l IH]; simpl.
  - reflexivity.
  - destruct (lt y x).
    + rewrite IH. apply perm_swap.
    + reflexivity.
Qed.

Lemma sort_elts_perm (l : list T) : Permutation (sort_elts lt l) l.
Proof.
  induction l as [|x l IH]; simpl.
  - reflexivity.
  - rewrite insert_elt_perm. now constructor.
Qed.

Lemma insert_elt_ascending (x : T) (l : list T) :
  ascending lt l -> ascending lt (insert_elt lt x l).
Proof.
  unfold ascending.
  induction l as [|y l IH]; simpl; intro Hs.
  - repeat constructor.
  - apply StronglySorted_inv in Hs. destruct Hs as [Hl Hy].
    destruct (lt y x) eqn:E.
    + constructor; [now apply IH|].
      eapply Permutation_Forall; [symmetry; apply insert_elt_perm|].
      constructor; [|exact Hy].
      now apply (swo_asym lt lt_swo).
    + constructor; [now constructor|].
      constructor; [exact E|].
      eapply Forall_impl; [|exact Hy].
      intros z Hz. simpl in Hz. eapply not_lt_trans; eassumption.
Qed.

Lemma sort_elts_ascending (l : list T) : ascending lt (sort_elts lt l).
Proof.
  induction l as [|x l IH]; simpl.
  - constructor.
  - now apply insert_elt_ascending.
Qed.

Lemma StronglySorted_app_single (R : T -> T -> Prop) (l : list T) (x : T) :
  StronglySorted R l -> Forall (fun y => R y x) l ->
  StronglySorted R (l ++ [x]).
Proof.
  induction l as [|y l IH]; simpl; intros Hs Hx.
  - repeat constructor.
  - apply StronglySorted_inv in Hs. destruct Hs as [Hl Hy].
    inversion Hx; subst.
    constructor; [now apply IH|].
    apply Forall_app. split; [exact Hy|]. now repeat constructor.
Qed.

Lemma StronglySorted_rev (R : T -> T -> Prop) (l : list T) :
  StronglySorted R l -> StronglySorted (fun a b => R b a) (rev l).
Proof.
  induction 1 as [|x l Hs IH Hx]; simpl.
  - constructor.
  - apply StronglySorted_app_single; [exact IH|].
    now apply Forall_rev.
Qed.

Lemma sort_with_perm (reverse : bool) (l : list T) :
  Permutation (sort_with lt reverse l) l.
Proof.
  unfold sort_with. destruct reverse.
  - rewrite <- Permutation_rev, sort_elts_perm. symmetry. apply Permutation_rev.
  - apply sort_elts_perm.
Qed.

Lemma sort_with_ordered (reverse : bool) (l : list T) :
  if reverse then descending lt (sort_with lt reverse l)
  else ascending lt (sort_with lt reverse l).
Proof.
  unfold sort_with. destruct reverse.
  - unfold descending.
    apply (StronglySorted_rev (fun a b => lt b a = false)).
    apply sort_elts_ascending.
  - apply sort_elts_ascending.
Qed.

(** Stability: the elements with the key of [k] come out in the order in
    which they came in. *)

Lemma same_not_lt (x y k : T) :
  same x k = true -> same y k = true -> lt y x = false.
Proof.
  unfold same. rewrite !andb_true_iff, !negb_true_iff.
  intros [Hxk Hkx] [Hyk Hky].
  eapply not_lt_trans; eassumption.
Qed.

Lemma insert_elt_stable (k x : T) (l : list T) :
  filter (fun y => same y k) (insert_elt lt x l)
  = filter (fun y => same y k) (x :: l).
Proof.
  induction l as [|y l IH]; [reflexivity|].
  cbn [insert_elt]. destruct (lt y x) eqn:E; [|reflexivity].
  cbn [filter] in *. rewrite IH.
  destruct (same y k) eqn:Hy; [|reflexivity].
  destruct (same x k) eqn:Hx; [|reflexivity].
  pose proof (same_not_lt x y k Hx Hy). congruence.
Qed.

Lemma sort_elts_stable (k : T) (l : list T) :
  filter (fun y => same y k) (sort_elts lt l) = filter (fun y => same y k) l.
Proof.
  induction l as [|x l IH]; [reflexivity|].
  cbn [sort_elts fold_right]. fold (sort_elts lt l).
  rewrite insert_elt_stable. cbn [filter]. now rewrite IH.
Qed.

Lemma sort_with_stable (reverse : bool) (k : T) (l : list T) :
  filter (fun y => negb (lt y k) && negb (lt k y)) (sort_with lt reverse l)
  = filter (fun y => negb (lt y k) && negb (lt k y)) l.
Proof.
  change (filter (fun y => same y k) (sort_with lt reverse l)
          = filter (fun y => same y k) l).
  unfold sort_with. destruct reverse.
  - rewrite filter_rev, sort_elts_stable, filter_rev. apply rev_involutive.
  - apply sort_elts_stable.
Qed.

(** A list has at most one ordering that is strictly ascending. *)

Lemma strictly_ascending_unique (l1 l2 : list T) :
  strictly_ascending lt l1 -> strictly_ascending lt l2 -> Permutation l1 l2 ->
  l1 = l2.
Proof.
  unfold strictly_ascending. revert l2.
  induction l1 as [|x l1 IH]; intros l2 H1 H2 HP.
  - apply Permutation_nil in HP. now subst.
  - destruct l2 as [|y l2].
    { symmetry in HP. apply Permutation_nil in HP. discriminate. }
    apply StronglySorted_inv in H1. destruct H1 as [H1 Hx].
    apply StronglySorted_inv in H2. destruct H2 as [H2 Hy].
    assert (Exy : x = y).
    { assert (Ix : In x (y :: l2))
        by (eapply Permutation_in; [exact HP|now left]).
      assert (Iy : In y (x :: l1))
        by (eapply Permutation_in; [symmetry; exact HP|now left]).
      destruct Ix as [Ix|Ix]; [now subst|].
      destruct Iy as [Iy|Iy]; [now subst|].
      rewrite Forall_forall in Hx, Hy.
      pose proof (Hx _ Iy) as Hxy. pose proof (Hy _ Ix) as Hyx.
      pose proof (swo_asym lt lt_swo _ _ Hxy). congruence. }
    subst y. f_equal. apply IH; try assumption.
    eapply Permutation_cons_inv. exact HP.
Qed.

Lemma distinct_keys_NoDup (l : list T) : distinct_keys lt l -> NoDup l.
Proof.
  induction 1 as [|x l Hx _ IH]; constructor; [|exact IH].
  intro Hin. rewrite Forall_forall in Hx.
  destruct (Hx _ Hin) as [H|H]; rewrite lt_irrefl in H; discriminate.
Qed.

Lemma ascending_strictly (s l : list T) :
  distinct_keys lt l -> Permutation s l -> ascending lt s -> strictly_ascending lt s.
Proof.
  intros Hd HP Hs.
  assert (Hnd : NoDup s).
  { eapply Permutation_NoDup; [symmetry; exact HP|].
    now apply distinct_keys_NoDup. }
  assert (Hin : forall a, In a s -> In a l)
    by (intros a Ha; eapply Permutation_in; eassumption).
  clear HP. unfold ascending, strictly_ascending in *.
  induction Hs as [|x s Hs IH Hx].
  - constructor.
  - inversion Hnd; subst.
    constructor.
    + apply IH; [assumption|]. intros a Ha. apply Hin. now right.
    + rewrite Forall_forall in *. intros y Hy.
      destruct (ForallOrdPairs_In Hd x y) as [E|[[H|H]|[H|H]]];
        try (apply Hin; simpl; auto); try assumption.
      * subst. contradiction.
      * pose proof (Hx _ Hy). simpl in *. congruence.
      * pose proof (Hx _ Hy). simpl in *. congruence.
Qed.

Lemma distinct_keys_sort_rev (l : list T) :
  distinct_keys lt l -> sort_elts lt (rev l) = sort_elts lt l.
Proof.
  intro Hd. apply strictly_ascending_unique.
  - apply (ascending_strictly _ l Hd).
    + rewrite sort_elts_perm. symmetry. apply Permutation_rev.
    + apply sort_elts_ascending.
  - apply (ascending_strictly _ l Hd).
    + apply sort_elts_perm.
    + apply sort_elts_ascending.
  - rewrite !sort_elts_perm. symmetry. apply Permutation_rev.
Qed.

Lemma sort_with_reverse_distinct (l : list T) :
  distinct_keys lt l -> sort_with lt true l = rev (sort_with lt false l).
Proof.
  intro Hd. unfold sort_with. now rewrite distinct_keys_sort_rev.
Qed.

End SortTheory.

(** ** The orders on keys *)

Lemma swo_on_key {T K : Type} (ltb : K -> K -> bool) (key : T -> K) :
  strict_weak_order ltb ->
  strict_weak_order (fun a b => ltb (key a) (key b)).
Proof.
  intros [Ha Hc]. split.
  - intros a b. apply Ha.
  - intros a b c. apply Hc.
Qed.

Lemma Z_ltb_swo : strict_weak_order Z.ltb.
Proof.
  split.
  - intros a b H. apply Z.ltb_lt in H. apply Z.ltb_ge. lia.
  - intros a b c H. apply Z.ltb_lt in H. rewrite !Z.ltb_lt. lia.
Qed.

Lemma Qltb_swo : strict_weak_order Qltb.
Proof.
  split.
  - intros a b H. apply Qltb_lt in H. apply Qltb_ge. now apply Qlt_le_weak.
  - intros a b c H. apply Qltb_lt in H. rewrite !Qltb_lt.
    destruct (Qlt_le_dec a b) as [Hab|Hba]; [now left|right].
    eapply Qle_lt_trans; eassumption.
Qed.

Lemma dt_ltb_lt (a b : datetime) :
  dt_ltb a b = true <->
  (year a < year b
   \/ (year a = year b
       /\ (month a < month b \/ (month a = month b /\ day a < day b))))%Z.
Proof.
  unfold dt_ltb.
  now rewrite !orb_true_iff, !andb_true_iff, !orb_true_iff, !andb_true_iff,
    !Z.ltb_lt, !Z.eqb_eq.
Qed.

Lemma dt_ltb_swo : strict_weak_order dt_ltb.
Proof.
  split.
  - intros a b H. apply dt_ltb_lt in H.
    apply Bool.not_true_iff_false. rewrite dt_ltb_lt. lia.
  - intros a b c H. apply dt_ltb_lt in H. rewrite !dt_ltb_lt. lia.
Qed.

Lemma ascii_compare_lt_trans (a b c : ascii) :
  Ascii.compare a b = Lt -> Ascii.compare b c = Lt -> Ascii.compare a c = Lt.
Proof.
  unfold Ascii.compare. rewrite !N.compare_lt_iff. apply N.lt_trans.
Qed.

Lemma string_compare_lt_trans (a b c : string) :
  String.compare a b = Lt -> String.compare b c = Lt -> String.compare a c = Lt.
Proof.
  revert b c.
  induction a as [|x a IH]; intros [|y b] [|z c]; simpl; try congruence.
  destruct (Ascii.compare x y) eqn:Exy; try discriminate;
    destruct (Ascii.compare y z) eqn:Eyz; try discriminate; intros Hab Hbc.
  - apply Ascii.compare_eq_iff in Exy, Eyz. subst.
    replace (Ascii.compare z z) with Eq.
    + eapply IH; eassumption.
    + symmetry. unfold Ascii.compare. apply N.compare_refl.
  - apply Ascii.compare_eq_iff in Exy. subst. now rewrite Eyz.
  - apply Ascii.compare_eq_iff in Eyz. subst. now rewrite Exy.
  - now rewrite (ascii_compare_lt_trans x y z).
Qed.

Lemma string_ltb_lt (a b : string) :
  String.ltb a b = true <-> String.compare a b = Lt.
Proof.
  unfold String.ltb. destruct (String.compare a b); split; congruence.
Qed.

Lemma string_ltb_swo : strict_weak_order String.ltb.
Proof.
  split.
  - intros a b H. apply string_ltb_lt in H.
    unfold String.ltb. rewrite String.compare_antisym, H. reflexivity.
  - intros a b c H. rewrite !string_ltb_lt. apply string_ltb_lt in H.
    destruct (String.compare a b) eqn:Eab.
    + apply String.compare_eq_iff in Eab. subst. now right.
    + now left.
    + right. apply (string_compare_lt_trans b a c); [|exact H].
      rewrite String.compare_antisym, Eab. reflexivity.
Qed.

Lemma string_ltb_irrefl (a : string) : String.ltb a a = false.
Proof. apply (lt_irrefl _ string_ltb_swo). Qed.

Lemma string_ltb_total (a b : string) :
  a <> b -> String.ltb a b = true \/ String.ltb b a = true.
Proof.
  intro Hne. rewrite !string_ltb_lt.
  destruct (String.compare a b) eqn:E.
  - apply String.compare_eq_iff in E. contradiction.
  - now left.
  - right. rewrite String.compare_antisym, E. reflexivity.
Qed.

Lemma key_lt_swo (strptime : string -> option datetime)
    (sort_key : option string) :
  strict_weak_order (key_lt strptime sort_key).
Proof.
  unfold key_lt.
  destruct (key_is sort_key "date");
    [exact (swo_on_key dt_ltb (date_key strptime) dt_ltb_swo)|].
  destruct (key_is sort_key "amount");
    [exact (swo_on_key Qltb amount Qltb_swo)|].
  destruct (key_is sort_key "category");
    [exact (swo_on_key String.ltb (fun t => lower (category t)) string_ltb_swo)|].
  exact (swo_on_key Z.ltb id Z_ltb_swo).
Qed.

(** ** From the decorated sort to the sort on elements *)

Lemma mapM_total {A B : Type} (f : A -> outcome B) (g : A -> B) (l : list A) :
  (forall x, In x l -> f x = Ret (g x)) -> mapM f l = Ret (map g l).
Proof.
  induction l as [|x l IH]; intro H; simpl.
  - reflexivity.
  - rewrite (H x (or_introl eq_refl)). simpl.
    rewrite IH; [reflexivity|]. intros y Hy. apply H. now right.
Qed.

Lemma mapM_Ret_inv {A B : Type} (f : A -> outcome B) (l : list A)
    (ys : list B) :
  mapM f l = Ret ys -> forall x, In x l -> exists y, f x = Ret y.
Proof.
  revert ys. induction l as [|x l IH]; intros ys H z Hz; [destruct Hz|].
  simpl in H. destruct (f x) as [y|e] eqn:Ex; [|discriminate].
  simpl in H. destruct (mapM f l) as [ys'|e] eqn:El; [|discriminate].
  destruct Hz as [<-|Hz]; [eauto|]. eapply IH; eauto.
Qed.

Lemma mapM_raise {A B : Type} (f : A -> outcome B) (e : exn) (l : list A) :
  (forall x, In x l -> f x = Raise e \/ exists y, f x = Ret y) ->
  Exists (fun x => f x = Raise e) l -> mapM f l = Raise e.
Proof.
  induction l as [|x l IH]; intros Hall Hex; [inversion Hex|].
  simpl. destruct (Hall x (or_introl eq_refl)) as [Hx|[y Hx]]; rewrite Hx.
  - reflexivity.
  - simpl. rewrite IH; [reflexivity| |].
    + intros z Hz. apply Hall. now right.
    + inversion Hex; subst; [congruence|assumption].
Qed.

Lemma combine_map_self {A B : Type} (g : A -> B) (l : list A) :
  combine (map g l) l = map (fun x => (g x, x)) l.
Proof.
  induction l as [|x l IH]; simpl; [reflexivity|]. now rewrite IH.
Qed.

Section Decorated.

Context {K T : Type}.
Variable ltb : K -> K -> bool.
Variable key : T -> K.

Let dec (x : T) : K * T := (key x, x).
Let lt (a b : T) : bool := ltb (key a) (key b).

Lemma insert_by_decorated (x : T) (l : list T) :
  insert_by ltb (dec x) (map dec l) = map dec (insert_elt lt x l).
Proof.
  induction l as [|y l IH]; simpl; [reflexivity|].
  unfold lt at 1. destruct (ltb (key y) (key x)); simpl.
  - now rewrite IH.
  - reflexivity.
Qed.

Lemma stable_sort_decorated (l : list T) :
  stable_sort ltb (map dec l) = map dec (sort_elts lt l).
Proof.
  induction l as [|x l IH]; [reflexivity|].
  unfold stable_sort, sort_elts in *. cbn [map fold_right].
  rewrite IH. apply insert_by_decorated.
Qed.

Lemma sort_decorated_elts (reverse : bool) (l : list T) :
  sort_decorated ltb reverse (map (fun x => (key x, x)) l)
  = sort_with (fun a b => ltb (key a) (key b)) reverse l.
Proof.
  change (sort_decorated ltb reverse (map dec l) = sort_with lt reverse l).
  unfold sort_decorated, sort_with. destruct reverse.
  - rewrite <- map_rev, stable_sort_decorated, <- map_rev, map_map.
    simpl. apply map_id.
  - rewrite stable_sort_decorated, map_map. simpl. apply map_id.
Qed.

Lemma sorted_total (keyfn : T -> outcome K) (reverse : bool) (l : list T) :
  (forall x, In x l -> keyfn x = Ret (key x)) ->
  sorted ltb keyfn reverse l
  = Ret (sort_with (fun a b => ltb (key a) (key b)) reverse l).
Proof.
  intro H. unfold sorted. rewrite (mapM_total keyfn key l H). simpl.
  now rewrite combine_map_self, sort_decorated_elts.
Qed.

End Decorated.

(** ** list_transactions *)

Section ListTransactions.

Variable strptime : string -> option datetime.

Lemma to_dt_date_key (t : Transaction) :
  strptime (date t) <> None ->
  to_dt strptime (date t) = Ret (date_key strptime t).
Proof.
  unfold to_dt, date_key. destruct (strptime (date t)); congruence.
Qed.

(** The call returns the stable sort of the records under the order of
    the sort key, provided the dates parse when they are the key. *)
Lemma list_transactions_returns (txs : list Transaction)
    (sort_key : option string) (reverse : bool) :
  key_is sort_key "date" = false
  \/ Forall (fun t => strptime (date t) <> None) txs ->
  list_transactions strptime txs sort_key reverse
  = Ret (sort_with (key_lt strptime sort_key) reverse txs).
Proof.
  intro H. unfold list_transactions, key_lt.
  destruct (key_is sort_key "date") eqn:Ed.
  - destruct H as [H|H]; [discriminate|]. rewrite Forall_forall in H.
    apply (sorted_total dt_ltb (date_key strptime)).
    intros t Ht. apply to_dt_date_key. now apply H.
  - destruct (key_is sort_key "amount").
    { now apply (sorted_total Qltb amount). }
    destruct (key_is sort_key "category").
    { now apply (sorted_total String.ltb (fun t => lower (category t))). }
    now apply (sorted_total Z.ltb id).
Qed.

(** With the date as the key, a date that does not parse aborts the call. *)
Lemma list_transactions_raises (txs : list Transaction)
    (sort_key : option string) (reverse : bool) :
  key_is sort_key "date" = true ->
  Exists (fun t => strptime (date t) = None) txs ->
  list_transactions strptime txs sort_key reverse = Raise ValueError.
Proof.
  intros Ed Hex. unfold list_transactions, sorted. rewrite Ed.
  rewrite (mapM_raise _ ValueError); [reflexivity| |].
  - intros t _. unfold to_dt. destruct (strptime (date t)); eauto.
  - eapply Exists_impl; [|exact Hex].
    intros t Ht. unfold to_dt. now rewrite Ht.
Qed.

Lemma list_transactions_Ret_inv (txs r : list Transaction)
    (sort_key : option string) (reverse : bool) :
  list_transactions strptime txs sort_key reverse = Ret r ->
  r = sort_with (key_lt strptime sort_key) reverse txs.
Proof.
  intro H.
  assert (Hok : key_is sort_key "date" = false
                \/ Forall (fun t => strptime (date t) <> None) txs).
  { destruct (key_is sort_key "date") eqn:Ed; [right|now left].
    unfold list_transactions, sorted in H. rewrite Ed in H.
    destruct (mapM (fun t => to_dt strptime (date t)) txs) as [ks|e] eqn:Em;
      [|discriminate].
    apply Forall_forall. intros t Ht.
    destruct (mapM_Ret_inv _ _ _ Em t Ht) as [y Hy].
    unfold to_dt in Hy. destruct (strptime (date t)); congruence. }
  rewrite (list_transactions_returns txs sort_key reverse Hok) in H.
  congruence.
Qed.

End ListTransactions.

Lemma StronglySorted_weaken {A : Type} (R R' : A -> A -> Prop) (l : list A) :
  (forall a b, R a b -> R' a b) -> StronglySorted R l -> StronglySorted R' l.
Proof.
  intros HR. induction 1 as [|x l Hs IH Hx]; constructor.
  - exact IH.
  - eapply Forall_impl; [|exact Hx]. intros b. apply HR.
Qed.

Lemma list_transactions_Ret_ok (strptime : string -> option datetime)
    (txs r : list Transaction) (sort_key : option string) (reverse : bool) :
  list_transactions strptime txs sort_key reverse = Ret r ->
  key_is sort_key "date" = false
  \/ Forall (fun t => strptime (date t) <> None) txs.
Proof.
  intro H.
  destruct (key_is sort_key "date") eqn:Ed; [right|now left].
  apply Forall_forall. intros t Ht.
  destruct (strptime (date t)) eqn:Et; [discriminate|].
  rewrite (list_transactions_raises strptime txs sort_key reverse Ed) in H.
  - discriminate.
  - apply Exists_exists. eauto.
Qed.

(** ** The collection as a shared object *)

Lemma deref_alloc_old (s : store) (l l0 : list Transaction) (r0 : ref) :
  deref s r0 = Some l0 -> deref (snd (alloc l s)) r0 = Some l0.
Proof.
  unfold deref, alloc. simpl. intro H.
  rewrite nth_error_app1; [exact H|].
  apply nth_error_Some. congruence.
Qed.

Lemma deref_alloc_new (s : store) (l : list Transaction) :
  deref s (fst (alloc l s)) = None
  /\ deref (snd (alloc l s)) (fst (alloc l s)) = Some l.
Proof.
  unfold deref, alloc. simpl. split.
  - now apply nth_error_None.
  - rewrite nth_error_app2, Nat.sub_diag; [reflexivity|lia].
Qed.

Lemma deref_assign (s : store) (r : ref) (l l0 : list Transaction) :
  deref s r = Some l0 -> deref (assign s r l) r = Some l.
Proof.
  unfold deref. revert r.
  induction s as [|x s IH]; intros [|r]; simpl; try discriminate.
  - reflexivity.
  - apply IH.
Qed.

(** [add_transaction] changes the list object that it is given. *)
Lemma add_transaction_in_appends (s : store) (r : ref)
    (txs : list Transaction) (d : string) (a : Q) (c ty de : string) :
  deref s r = Some txs ->
  let tx := mkTransaction (next_id txs) d a c ty de in
  add_transaction_in r d a c ty de s = (Some tx, assign s r (txs ++ [tx]))
  /\ deref (assign s r (txs ++ [tx])) r = Some (txs ++ [tx])%list.
Proof.
  intros H tx. split.
  - unfold add_transaction_in. rewrite H. reflexivity.
  - eapply deref_assign. exact H.
Qed.

(** C8: a call of [list_transactions] on the list object behind a reference
    leaves that object, and every other object of the store, as it was; the
    sorted records are in a new object, under a reference that was not in
    use, and a call that raises changes nothing at all. *)
Theorem list_transactions_leaves_collection
    (strptime : string -> option datetime) (s : store) (r : ref)
    (sort_key : option string) (reverse : bool) (txs : list Transaction)
    (Hr : deref s r = Some txs) :
  let res := list_transactions_in strptime r sort_key reverse s in
  deref (snd res) r = Some txs
  /\ (forall r0 l0, deref s r0 = Some l0 -> deref (snd res) r0 = Some l0)
  /\ match list_transactions strptime txs sort_key reverse with
     | Ret l => exists r', fst res = Some (Ret r') /\ r' <> r
                           /\ deref s r' = None
                           /\ deref (snd res) r' = Some l
     | Raise e => fst res = Some (Raise e) /\ snd res = s
     end.
Proof.
  unfold list_transactions_in. rewrite Hr.
  destruct (list_transactions strptime txs sort_key reverse) as [l|e]; simpl.
  - destruct (deref_alloc_new s l) as [Hn Hl].
    split; [now apply (deref_alloc_old s l)|].
    split; [intros r0 l0; apply (deref_alloc_old s l)|].
    exists (List.length s). repeat split; try assumption.
    intro E. simpl in Hn. rewrite E in Hn. congruence.
  - auto.
Qed.

Lemma list_transactions_leaves_collection_witness :
  let s := [sample_data] in
  let res := list_transactions_in strptime_iso 0%nat (Some "amount") true s in
  deref s 0%nat = Some sample_data /\ deref (snd res) 0%nat = Some sample_data.
Proof.
  intros s res.
  assert (H : deref s 0%nat = Some sample_data) by reflexivity.
  split; [exact H|].
  exact (proj1 (list_transactions_leaves_collection strptime_iso s 0%nat
                  (Some "amount") true sample_data H)).
Defined.

(** ** filter_expenses_over *)

Lemma Selects_In {T : Type} (P : T -> Prop) (l r : list T) :
  Selects P l r -> forall x, In x r <-> In x l /\ P x.
Proof.
  induction 1 as [|y l r Hy _ IH|y l r Hy _ IH]; intro x; simpl.
  - tauto.
  - rewrite IH. split.
    + intros [<-|[H1 H2]]; auto.
    + intros [[<-|H1] H2]; auto.
  - rewrite IH. split.
    + intros [H1 H2]; auto.
    + intros [[<-|H1] H2]; [contradiction|auto].
Qed.

(** C5: the result holds exactly the records whose type is ['expense'] and
    whose absolute amount is strictly above the threshold, in their original
    order; a record whose absolute amount equals the threshold is left out,
    and so is every record of another type. *)
Theorem filter_expenses_over_selects (txs : list Transaction) (threshold : Q) :
  Selects (fun t => ttype t = "expense" /\ threshold < Qabs (amount t))
          txs (filter_expenses_over txs threshold)
  /\ (forall t, In t (filter_expenses_over txs threshold) <->
                In t txs /\ ttype t = "expense" /\ threshold < Qabs (amount t))
  /\ (forall t, Qabs (amount t) == threshold ->
                ~ In t (filter_expenses_over txs threshold))
  /\ (forall t, ttype t <> "expense" ->
                ~ In t (filter_expenses_over txs threshold)).
Proof.
  assert (HS : Selects (fun t => ttype t = "expense"
                                 /\ threshold < Qabs (amount t))
                 txs (filter_expenses_over txs threshold)).
  { unfold filter_expenses_over.
    induction txs as [|t txs IH]; simpl; [constructor|].
    destruct (String.eqb_spec (ttype t) "expense") as [E|E]; simpl.
    - destruct (Qltb threshold (Qabs (amount t))) eqn:L.
      + constructor; [|exact IH]. split; [exact E|now apply Qltb_lt].
      + constructor; [|exact IH]. intros [_ H].
        apply Qltb_lt in H. congruence.
    - constructor; [|exact IH]. tauto. }
  pose proof (Selects_In _ _ _ HS) as HI.
  split; [exact HS|]. split; [exact HI|]. split.
  - intros t Heq Hin. apply HI in Hin. destruct Hin as (_ & _ & Hlt).
    rewrite Heq in Hlt. exact (Qlt_irrefl _ Hlt).
  - intros t Hne Hin. apply HI in Hin. tauto.
Qed.

(** ** filter_by_date_range *)

Section DateRange.

Variable strptime : string -> option datetime.

Lemma filter_by_date_range_loop_bad (start_date end_date : option string)
    (txs res : list Transaction) :
  Exists (fun t => strptime (date t) = None) txs ->
  filter_by_date_range_loop strptime start_date end_date txs res
  = Raise ValueError.
Proof.
  intro Hex. revert res.
  induction txs as [|t txs IH]; intro res; [inversion Hex|].
  cbn [filter_by_date_range_loop]. unfold to_dt at 1.
  destruct (strptime (date t)) as [dt|] eqn:Et; [|reflexivity].
  assert (Hex' : Exists (fun t => strptime (date t) = None) txs).
  { inversion Hex; subst; [congruence|assumption]. }
  specialize (IH Hex'). simpl.
  destruct (truthy start_date) as [sd|]; simpl.
  - unfold to_dt at 1. destruct (strptime sd) as [d1|]; [|reflexivity]. simpl.
    destruct (dt_ltb dt d1); [apply IH|].
    destruct (truthy end_date) as [ed|]; simpl; [|apply IH].
    unfold to_dt at 1. destruct (strptime ed) as [d2|]; [|reflexivity]. simpl.
    destruct (dt_ltb d2 dt); apply IH.
  - destruct (truthy end_date) as [ed|]; simpl; [|apply IH].
    unfold to_dt at 1. destruct (strptime ed) as [d2|]; [|reflexivity]. simpl.
    destruct (dt_ltb d2 dt); apply IH.
Qed.

Lemma filter_by_date_range_loop_unbounded (txs res : list Transaction) :
  Forall (fun t => strptime (date t) <> None) txs ->
  filter_by_date_range_loop strptime None None txs res
  = Ret (res ++ txs)%list.
Proof.
  intro Hall. revert res.
  induction Hall as [|t txs Ht _ IH]; intro res; simpl.
  - now rewrite app_nil_r.
  - unfold to_dt. destruct (strptime (date t)); [|congruence]. simpl.
    rewrite IH, <- app_assoc. reflexivity.
Qed.

End DateRange.

(** C10: when the date of some record does not parse the call raises,
    whatever the bounds are and also without bounds, since the date of each
    record is parsed before a bound is looked at; without bounds and with
    dates that all parse the call returns all the records in their order. *)
Theorem filter_by_date_range_parses_every_date
    (strptime : string -> option datetime) (txs : list Transaction) :
  (Exists (fun t => strptime (date t) = None) txs ->
   forall start_date end_date,
     filter_by_date_range strptime txs start_date end_date = Raise ValueError)
  /\ (Forall (fun t => strptime (date t) <> None) txs ->
      filter_by_date_range strptime txs None None = Ret txs).
Proof.
  split.
  - intros Hex start_date end_date.
    now apply filter_by_date_range_loop_bad.
  - intro Hall. unfold filter_by_date_range.
    now rewrite filter_by_date_range_loop_unbounded.
Qed.

Lemma filter_by_date_range_parses_every_date_witness :
  let bad := mkTransaction 9 "2025-02-30" 5 "Snacks" "expense" "Late night snacks" in
  strptime_iso (date bad) = None
  /\ filter_by_date_range strptime_iso (sample_data ++ [bad]) None None
     = Raise ValueError
  /\ filter_by_date_range strptime_iso sample_data None None = Ret sample_data.
Proof.
  intro bad.
  assert (Hb : strptime_iso (date bad) = None) by reflexivity.
  split; [exact Hb|]. split.
  - apply (proj1 (filter_by_date_range_parses_every_date strptime_iso
                    (sample_data ++ [bad]))).
    apply Exists_exists. exists bad. split; [|exact Hb].
    apply in_or_app. right. now left.
  - apply (proj2 (filter_by_date_range_parses_every_date strptime_iso
                    sample_data)).
    repeat (constructor; [discriminate|]). constructor.
Defined.

(** ** Persistence *)

Section PersistenceTheory.

Variable int_of_str : string -> option Z.
Variable float_of_str : string -> option Q.
Variable repr : json -> string.
Variable DEFAULT_SAVE_FILE : string.
Variable temp_path : string -> string.
Variable probe_path : string -> string.

Let load := load_transactions int_of_str float_of_str repr
              DEFAULT_SAVE_FILE temp_path.

Lemma from_dict_to_dict (t : Transaction) :
  from_dict int_of_str float_of_str repr (to_dict t) = Ret t.
Proof. destruct t. reflexivity. Qed.

Lemma mapM_from_dict_to_dict (txs : list Transaction) :
  mapM (from_dict int_of_str float_of_str repr) (map to_dict txs) = Ret txs.
Proof.
  induction txs as [|t txs IH]; [reflexivity|].
  cbn [map mapM]. rewrite from_dict_to_dict, IH. reflexivity.
Qed.

Lemma candidates_head (filename : string) :
  exists rest,
    candidates DEFAULT_SAVE_FILE temp_path filename = filename :: rest.
Proof.
  unfold candidates.
  destruct (negb (String.eqb filename DEFAULT_SAVE_FILE));
    match goal with
    | |- context [if ?b then _ else _] => destruct b
    end; simpl; eauto.
Qed.

Lemma load_loop_recovers (w : world) (paths : list string)
    (log : list message) :
  Forall (harmless w) paths ->
  fst (load_loop int_of_str float_of_str repr w paths log) = Ret [].
Proof.
  intro H. revert log.
  induction H as [|path paths Hp _ IH]; intro log; simpl; [reflexivity|].
  unfold read_candidate, open_read.
  destruct Hp as [Hp|[Hp|Hp]]; rewrite Hp; simpl; apply IH.
Qed.

(** The part of the recovery that the code has: when every candidate is
    absent, unreadable or not JSON, the result is the empty collection. *)
Lemma load_transactions_recovers (w : world) (filename : string) :
  Forall (harmless w) (candidates DEFAULT_SAVE_FILE temp_path filename) ->
  fst (load filename w) = Ret [].
Proof. apply load_loop_recovers. Qed.

End PersistenceTheory.

(** C3, as the code has it: a candidate whose content is JSON but not a list
    of records with the keys [id], [date] and [amount], or is not UTF-8,
    makes [load_transactions] raise; only [OSError] and [JSONDecodeError]
    are caught, and the next candidates are not tried. *)
Theorem load_transactions_raises (int_of_str : string -> option Z)
    (float_of_str : string -> option Q) (repr : json -> string) :
  let load :=
    load_transactions int_of_str float_of_str repr
      demo_default demo_temp_path "data.json" in
  load world_missing_key = (Raise KeyError, [])
  /\ load world_not_utf8 = (Raise UnicodeDecodeError, [])
  /\ load world_not_records = (Raise TypeError, [])
  /\ load world_recoverable
     = (Ret [], [WarnJson "data.json"; WarnRead demo_default]).
Proof.
  repeat split; reflexivity.
Qed.

(** C4: after a save to a path whose directory passes the write test and
    that can be written, a load of the same path returns the saved
    collection: the same number of records, with the same six fields, in
    the same order; no diagnostic is printed. *)
Theorem save_load_round_trip (int_of_str : string -> option Z)
    (float_of_str : string -> option Q) (repr : json -> string)
    (DEFAULT_SAVE_FILE : string) (temp_path probe_path : string -> string)
    (txs : list Transaction) (filename : string) (w : world)
    (Hprobe : probe_ok w filename = true)
    (Hwrite : write_ok w filename = true) :
  let res :=
    save_transactions temp_path probe_path txs filename w in
  res = (true, snd (fst res), [])
  /\ load_transactions int_of_str float_of_str repr DEFAULT_SAVE_FILE temp_path
       filename (snd (fst res))
     = (Ret txs, []).
Proof.
  unfold save_transactions, _preferred_writable_path.
  rewrite Hprobe. simpl. rewrite Hwrite, String.eqb_refl. simpl.
  split; [reflexivity|].
  unfold load_transactions.
  destruct (candidates_head DEFAULT_SAVE_FILE temp_path filename) as [rest ->].
  simpl. unfold read_candidate, open_read. simpl.
  rewrite String.eqb_refl. simpl.
  now rewrite mapM_from_dict_to_dict.
Qed.

Lemma save_load_round_trip_witness :
  let res :=
    save_transactions demo_temp_path demo_probe_path
      sample_data "data.json" empty_world in
  probe_ok empty_world "data.json" = true
  /\ write_ok empty_world "data.json" = true
  /\ load_transactions (fun _ => None) (fun _ => None) (fun _ => EmptyString)
       demo_default demo_temp_path "data.json" (snd (fst res))
     = (Ret sample_data, []).
Proof.
  intro res.
  assert (Hp : probe_ok empty_world "data.json" = true) by reflexivity.
  assert (Hw : write_ok empty_world "data.json" = true) by reflexivity.
  split; [exact Hp|]. split; [exact Hw|].
  exact (proj2 (save_load_round_trip (fun _ => None) (fun _ => None)
                  (fun _ => EmptyString) demo_default demo_temp_path demo_probe_path
                  sample_data "data.json" empty_world Hp Hw)).
Defined.

(** ** Identifiers: next_id, add_transaction, find_by_id, deletion *)

Lemma fold_max_ge (xs : list Z) (x : Z) :
  (x <= fold_left Z.max xs x)%Z
  /\ Forall (fun y => (y <= fold_left Z.max xs x)%Z) xs.
Proof.
  revert x. induction xs as [|y xs IH]; intro x; simpl.
  - split; [lia|constructor].
  - destruct (IH (Z.max x y)) as [H1 H2]. split; [lia|].
    constructor; [lia|exact H2].
Qed.

Lemma fold_max_In (xs : list Z) (x : Z) :
  In (fold_left Z.max xs x) (x :: xs).
Proof.
  revert x. induction xs as [|y xs IH]; intro x; simpl.
  - now left.
  - destruct (IH (Z.max x y)) as [H|H].
    + rewrite <- H.
      destruct (Z.max_spec x y) as [[_ E]|[_ E]]; rewrite E; auto.
    + auto.
Qed.

Lemma next_id_above (txs : list Transaction) :
  Forall (fun t => (id t < next_id txs)%Z) txs.
Proof.
  unfold next_id. destruct txs as [|t txs]; [constructor|].
  cbn [map]. destruct (fold_max_ge (map id txs) (id t)) as [H1 H2].
  constructor; [lia|].
  rewrite Forall_map in H2. eapply Forall_impl; [|exact H2].
  intros u Hu. simpl in Hu. lia.
Qed.

Lemma next_id_not_in (txs : list Transaction) :
  ~ In (next_id txs) (map id txs).
Proof.
  intro H. apply in_map_iff in H. destruct H as (t & E & Ht).
  pose proof (next_id_above txs) as Ha. rewrite Forall_forall in Ha.
  specialize (Ha t Ht). lia.
Qed.

Lemma next_id_cases (txs : list Transaction) :
  (txs = [] /\ next_id txs = 1%Z)
  \/ exists t, In t txs /\ next_id txs = (id t + 1)%Z.
Proof.
  destruct txs as [|t txs]; [left; split; reflexivity|right].
  unfold next_id. cbn [map].
  destruct (fold_max_In (map id txs) (id t)) as [H|H].
  - exists t. split; [now left|]. now rewrite <- H.
  - apply in_map_iff in H. destruct H as (u & E & Hu).
    exists u. split; [now right|]. now rewrite <- E.
Qed.

(** X1: the next id is above every id of the collection; it is 1 for the
    empty collection and otherwise one more than the id of some record, that
    is, one more than the largest id. *)
Theorem next_id_is_max_plus_one (txs : list Transaction) :
  Forall (fun t => (id t < next_id txs)%Z) txs
  /\ ((txs = [] /\ next_id txs = 1%Z)
      \/ exists t, In t txs /\ next_id txs = (id t + 1)%Z).
Proof.
  split.
  - apply next_id_above.
  - apply next_id_cases.
Qed.

(** X2: [add_transaction] appends one record whose id is not yet in use; it
    keeps the ids of a collection pairwise distinct, and positive. *)
Theorem add_transaction_keeps_ids (txs : list Transaction) (d : string)
    (a : Q) (c ty de : string) :
  let res := add_transaction txs d a c ty de in
  snd res = (txs ++ [fst res])%list
  /\ ~ In (id (fst res)) (map id txs)
  /\ (NoDup (map id txs) -> NoDup (map id (snd res)))
  /\ (Forall (fun t => (1 <= id t)%Z) txs ->
      Forall (fun t => (1 <= id t)%Z) (snd res)).
Proof.
  simpl. split; [reflexivity|]. split; [apply next_id_not_in|]. split.
  - intro H. rewrite map_app. simpl.
    eapply Permutation_NoDup; [apply Permutation_cons_append|].
    constructor; [apply next_id_not_in|exact H].
  - intro H. apply Forall_app. split; [exact H|].
    constructor; [|constructor]. simpl.
    destruct (next_id_cases txs) as [[_ E]|(t & Ht & E)].
    + rewrite E. lia.
    + rewrite E. rewrite Forall_forall in H. specialize (H t Ht). lia.
Qed.

Lemma add_transaction_keeps_ids_witness :
  NoDup (map id sample_data)
  /\ NoDup (map id (snd (add_transaction sample_data "2025-03-20" 50
                           "Snacks" "expense" "Late night snacks"))).
Proof.
  assert (H : NoDup (map id sample_data)).
  { simpl. repeat (constructor; [simpl; intuition discriminate|]).
    constructor. }
  split; [exact H|].
  exact (proj1 (proj2 (proj2 (add_transaction_keeps_ids sample_data
                                "2025-03-20" 50 "Snacks" "expense"
                                "Late night snacks"))) H).
Defined.

Lemma find_by_id_none (txs : list Transaction) (tid : Z) :
  find_by_id txs tid = None <-> Forall (fun t => id t <> tid) txs.
Proof.
  unfold find_by_id. induction txs as [|t txs IH]; simpl.
  - split; [constructor|reflexivity].
  - destruct (Z.eqb_spec (id t) tid) as [E|E].
    + split; [discriminate|]. intro H. inversion H; subst. contradiction.
    + rewrite IH. split.
      * intro H. now constructor.
      * intro H. now inversion H.
Qed.

Lemma find_by_id_first (l1 l2 : list Transaction) (t : Transaction) :
  Forall (fun u => id u <> id t) l1 ->
  find_by_id (l1 ++ t :: l2) (id t) = Some t.
Proof.
  unfold find_by_id. induction 1 as [|u l1 Hu _ IH]; simpl.
  - now rewrite Z.eqb_refl.
  - apply Z.eqb_neq in Hu. now rewrite Hu.
Qed.

Lemma find_by_id_some (txs : list Transaction) (tid : Z) (t : Transaction) :
  find_by_id txs tid = Some t ->
  exists l1 l2, txs = (l1 ++ t :: l2)%list /\ id t = tid
                /\ Forall (fun u => id u <> tid) l1.
Proof.
  unfold find_by_id. induction txs as [|u txs IH]; simpl; [discriminate|].
  destruct (Z.eqb_spec (id u) tid) as [E|E].
  - intro H. inversion H; subst. exists [], txs. auto.
  - intro H. destruct (IH H) as (l1 & l2 & -> & Et & Hl).
    exists (u :: l1), l2. auto.
Qed.

(** X3: [find_by_id] returns nothing exactly when no record has the id; a
    record that it returns has the id and is the first such record of the
    collection; when the ids are pairwise distinct every record of the
    collection is found by its id. *)
Theorem find_by_id_first_match (txs : list Transaction) (tid : Z) :
  (find_by_id txs tid = None <-> Forall (fun t => id t <> tid) txs)
  /\ (forall t, find_by_id txs tid = Some t <->
                exists l1 l2, txs = (l1 ++ t :: l2)%list /\ id t = tid
                              /\ Forall (fun u => id u <> tid) l1)
  /\ (NoDup (map id txs) ->
      forall t, In t txs -> find_by_id txs (id t) = Some t).
Proof.
  split; [apply find_by_id_none|]. split.
  - intro t. split; [apply find_by_id_some|].
    intros (l1 & l2 & -> & <- & Hl). now apply find_by_id_first.
  - intros Hnd t Ht.
    apply in_split in Ht. destruct Ht as (l1 & l2 & ->).
    apply find_by_id_first.
    rewrite map_app in Hnd. simpl in Hnd. apply NoDup_remove_2 in Hnd.
    apply Forall_forall. intros u Hu E. apply Hnd.
    apply in_or_app. left. rewrite <- E. now apply in_map.
Qed.

Lemma find_by_id_app (l1 l2 : list Transaction) (tid : Z) :
  find_by_id (l1 ++ l2) tid
  = match find_by_id l1 tid with
    | Some t => Some t
    | None => find_by_id l2 tid
    end.
Proof.
  unfold find_by_id. induction l1 as [|u l1 IH]; simpl; [reflexivity|].
  destruct (id u =? tid)%Z; [reflexivity|exact IH].
Qed.

(** X4: after [add_transaction] the new record is found by its id, and a
    lookup of any other id gives what it gave before. *)
Theorem find_by_id_after_add (txs : list Transaction) (d : string) (a : Q)
    (c ty de : string) (tid : Z) :
  let res := add_transaction txs d a c ty de in
  find_by_id (snd res) tid
  = if (tid =? next_id txs)%Z then Some (fst res) else find_by_id txs tid.
Proof.
  simpl. rewrite find_by_id_app.
  destruct (Z.eqb_spec tid (next_id txs)) as [E|E].
  - subst tid.
    assert (H : find_by_id txs (next_id txs) = None).
    { apply find_by_id_none. apply Forall_forall. intros t Ht Et.
      apply (next_id_not_in txs). rewrite <- Et. now apply in_map. }
    rewrite H. unfold find_by_id. simpl. now rewrite Z.eqb_refl.
  - destruct (find_by_id txs tid); [reflexivity|].
    unfold find_by_id. simpl.
    destruct (Z.eqb_spec (next_id txs) tid); [congruence|reflexivity].
Qed.

(** ** Deletion *)

Lemma tx_eqb_refl (t : Transaction) : tx_eqb t t = true.
Proof.
  assert (H : Qeq_bool (amount t) (amount t) = true)
    by (apply Qeq_bool_iff; reflexivity).
  unfold tx_eqb. rewrite Z.eqb_refl, !String.eqb_refl, H. reflexivity.
Qed.

Lemma tx_eqb_id (a b : Transaction) : tx_eqb a b = true -> id a = id b.
Proof.
  unfold tx_eqb. rewrite !andb_true_iff.
  intros [[[[[H _] _] _] _] _]. now apply Z.eqb_eq.
Qed.

Lemma list_remove_first (l1 l2 : list Transaction) (t : Transaction) :
  Forall (fun u => id u <> id t) l1 ->
  list_remove t (l1 ++ t :: l2) = Some (l1 ++ l2)%list.
Proof.
  induction 1 as [|u l1 Hu _ IH]; simpl.
  - now rewrite tx_eqb_refl.
  - destruct (tx_eqb u t) eqn:E.
    + apply tx_eqb_id in E. contradiction.
    + now rewrite IH.
Qed.

(** X5: once the id has been read, the lookup and the removal of the delete
    branch do not raise.  When no record has the id the collection is left
    as it is and nothing is reported deleted; otherwise the first record
    with the id, and only that one, is taken out. *)
Theorem menu_delete_first_match (txs : list Transaction) (tid : Z) :
  (Forall (fun t => id t <> tid) txs -> menu_delete txs tid = Ret (txs, false))
  /\ (forall l1 t l2,
        txs = (l1 ++ t :: l2)%list -> id t = tid ->
        Forall (fun u => id u <> tid) l1 ->
        menu_delete txs tid = Ret ((l1 ++ l2)%list, true))
  /\ exists l b, menu_delete txs tid = Ret (l, b).
Proof.
  assert (H1 : Forall (fun t => id t <> tid) txs ->
               menu_delete txs tid = Ret (txs, false)).
  { intro H. unfold menu_delete.
    apply find_by_id_none in H. now rewrite H. }
  assert (H2 : forall l1 t l2,
             txs = (l1 ++ t :: l2)%list -> id t = tid ->
             Forall (fun u => id u <> tid) l1 ->
             menu_delete txs tid = Ret ((l1 ++ l2)%list, true)).
  { intros l1 t l2 -> <- Hl. unfold menu_delete.
    rewrite (find_by_id_first l1 l2 t Hl).
    now rewrite (list_remove_first l1 l2 t Hl). }
  split; [exact H1|]. split; [exact H2|].
  destruct (find_by_id txs tid) as [t|] eqn:E.
  - apply find_by_id_some in E. destruct E as (l1 & l2 & E & Et & Hl).
    exists (l1 ++ l2)%list, true. now apply (H2 l1 t l2).
  - exists txs, false. apply H1. now apply find_by_id_none.
Qed.

(** X6: deleting the record that [add_transaction] has just appended gives
    back the collection as it was before. *)
Theorem menu_delete_undoes_add (txs : list Transaction) (d : string) (a : Q)
    (c ty de : string) :
  let res := add_transaction txs d a c ty de in
  menu_delete (snd res) (id (fst res)) = Ret (txs, true).
Proof.
  simpl. unfold menu_delete.
  assert (Hl : Forall (fun u => id u <> next_id txs) txs).
  { apply Forall_forall. intros t Ht Et.
    apply (next_id_not_in txs). rewrite <- Et. now apply in_map. }
  set (tx := mkTransaction (next_id txs) d a c ty de).
  change (next_id txs) with (id tx) in Hl |- *.
  rewrite (find_by_id_first txs [] tx Hl).
  rewrite (list_remove_first txs [] tx Hl).
  now rewrite app_nil_r.
Qed.

(** X7: in a collection with pairwise distinct ids, after a record is
    deleted its id is no longer found, the ids are still pairwise distinct,
    and every other id is found as before. *)
Theorem menu_delete_unique_ids (txs l : list Transaction) (tid : Z)
    (Hnd : NoDup (map id txs))
    (Hdel : menu_delete txs tid = Ret (l, true)) :
  find_by_id l tid = None
  /\ NoDup (map id l)
  /\ forall other, other <> tid -> find_by_id l other = find_by_id txs other.
Proof.
  unfold menu_delete in Hdel.
  destruct (find_by_id txs tid) as [t|] eqn:E; [|discriminate].
  apply find_by_id_some in E. destruct E as (l1 & l2 & -> & Et & Hl).
  subst tid. rewrite (list_remove_first l1 l2 t Hl) in Hdel.
  inversion Hdel; subst l. clear Hdel.
  rewrite map_app in Hnd. simpl in Hnd.
  pose proof (NoDup_remove_1 _ _ _ Hnd) as Hnd1.
  pose proof (NoDup_remove_2 _ _ _ Hnd) as Hnd2.
  split; [|split].
  - apply find_by_id_none. apply Forall_forall. intros u Hu Eu.
    apply Hnd2. rewrite <- Eu, <- map_app. now apply in_map.
  - now rewrite map_app.
  - intros other Ho. rewrite !find_by_id_app.
    destruct (find_by_id l1 other); [reflexivity|].
    unfold find_by_id. simpl.
    destruct (Z.eqb_spec (id t) other); [congruence|reflexivity].
Qed.

Lemma menu_delete_unique_ids_witness :
  NoDup (map id txs2)
  /\ menu_delete txs2 2 = Ret ([mkTransaction 1 "2025-01-01" 1000 "Salary"
                                  "income" "Pay"], true)
  /\ find_by_id [mkTransaction 1 "2025-01-01" 1000 "Salary" "income" "Pay"] 2
     = None.
Proof.
  assert (Hn : NoDup (map id txs2)).
  { simpl. repeat (constructor; [simpl; intuition discriminate|]).
    constructor. }
  assert (Hd : menu_delete txs2 2
               = Ret ([mkTransaction 1 "2025-01-01" 1000 "Salary"
                         "income" "Pay"], true)) by reflexivity.
  split; [exact Hn|]. split; [exact Hd|].
  exact (proj1 (menu_delete_unique_ids txs2 _ 2%Z Hn Hd)).
Defined.

(** ** Filters and text search *)

Lemma filter_Selects {T : Type} (p : T -> bool) (P : T -> Prop) (l : list T) :
  (forall x, p x = true <-> P x) -> Selects P l (filter p l).
Proof.
  intro H. induction l as [|x l IH]; simpl; [constructor|].
  destruct (p x) eqn:E.
  - constructor; [now apply H|exact IH].
  - constructor; [|exact IH]. intro Hx. apply H in Hx. congruence.
Qed.

Lemma filter_filter_implies {T : Type} (p q : T -> bool) (l : list T) :
  (forall x, p x = true -> q x = true) ->
  filter p (filter q l) = filter p l.
Proof.
  intro H. induction l as [|x l IH]; simpl; [reflexivity|].
  destruct (q x) eqn:Eq; simpl.
  - now rewrite IH.
  - rewrite IH. destruct (p x) eqn:Ep; [|reflexivity].
    rewrite (H x Ep) in Eq. discriminate.
Qed.

Lemma filter_none {T : Type} (p : T -> bool) (l : list T) :
  (forall x, In x l -> p x = false) -> filter p l = [].
Proof.
  induction l as [|x l IH]; simpl; intro H; [reflexivity|].
  rewrite (H x (or_introl eq_refl)). apply IH. intros y Hy. apply H. now right.
Qed.

Lemma str_in_empty (s : string) : str_in EmptyString s = true.
Proof. destruct s; reflexivity. Qed.

Lemma prefix_refl (s : string) : String.prefix s s = true.
Proof.
  induction s as [|c s IH]; simpl; [reflexivity|].
  destruct (ascii_dec c c); [exact IH|contradiction].
Qed.

Lemma str_in_refl (s : string) : str_in s s = true.
Proof.
  destruct s as [|c s]; [reflexivity|].
  cbn [str_in]. now rewrite prefix_refl.
Qed.

(** ** filter_by_date_range with bounds *)

Section DateRangeBounds.

Variable strptime : string -> option datetime.

Lemma filter_by_date_range_loop_within (start_date end_date : option string)
    (lo hi : option datetime) (txs res : list Transaction) :
  Forall (fun t => strptime (date t) <> None) txs ->
  bound_parses strptime start_date lo ->
  bound_parses strptime end_date hi ->
  filter_by_date_range_loop strptime start_date end_date txs res
  = Ret (res ++ filter (fun t => within lo hi (date_key strptime t)) txs)%list.
Proof.
  intros Hall Hlo Hhi. revert res.
  induction Hall as [|t txs Ht _ IH]; intro res.
  - simpl. now rewrite app_nil_r.
  - cbn [filter_by_date_range_loop filter].
    unfold date_key at 1, to_dt at 1.
    destruct (strptime (date t)) as [dt|]; [|congruence]. simpl.
    unfold bound_parses in Hlo, Hhi. unfold within at 1.
    destruct (truthy start_date) as [s|].
    + destruct Hlo as [Hn Hs]. unfold to_dt at 1. rewrite Hs.
      destruct lo as [sd|]; [|congruence]. simpl.
      destruct (dt_ltb dt sd); simpl; [apply IH|].
      destruct (truthy end_date) as [e|].
      * destruct Hhi as [Hn' He]. unfold to_dt at 1. rewrite He.
        destruct hi as [ed|]; [|congruence]. simpl.
        destruct (dt_ltb ed dt); simpl; [apply IH|].
        rewrite IH, <- app_assoc. reflexivity.
      * subst hi. simpl. rewrite IH, <- app_assoc. reflexivity.
    + subst lo. simpl.
      destruct (truthy end_date) as [e|].
      * destruct Hhi as [Hn' He]. unfold to_dt at 1. rewrite He.
        destruct hi as [ed|]; [|congruence]. simpl.
        destruct (dt_ltb ed dt); simpl; [apply IH|].
        rewrite IH, <- app_assoc. reflexivity.
      * subst hi. simpl. rewrite IH, <- app_assoc. reflexivity.
Qed.

Lemma filter_by_date_range_loop_before (start_date end_date : option string)
    (s : string) (sd : datetime) (txs res : list Transaction) :
  truthy start_date = Some s -> strptime s = Some sd ->
  Forall (fun t => exists dt, strptime (date t) = Some dt
                              /\ dt_ltb dt sd = true) txs ->
  filter_by_date_range_loop strptime start_date end_date txs res = Ret res.
Proof.
  intros Hs Hsd Hall. revert res.
  induction Hall as [|t txs (dt & Ht & Hb) _ IH]; intro res; [reflexivity|].
  cbn [filter_by_date_range_loop]. unfold to_dt at 1. rewrite Ht. simpl.
  rewrite Hs. unfold to_dt at 1. rewrite Hsd. simpl. rewrite Hb. apply IH.
Qed.

End DateRangeBounds.

(** X11: when the dates of the records parse and each bound is absent,
    empty, or parses, the call returns, in order, the records whose date is
    neither before the start nor after the end; the bounds are inclusive. *)
Theorem filter_by_date_range_inclusive (strptime : string -> option datetime)
    (txs : list Transaction) (start_date end_date : option string)
    (lo hi : option datetime)
    (Hdates : Forall (fun t => strptime (date t) <> None) txs)
    (Hlo : bound_parses strptime start_date lo)
    (Hhi : bound_parses strptime end_date hi) :
  filter_by_date_range strptime txs start_date end_date
  = Ret (filter (fun t => within lo hi (date_key strptime t)) txs)
  /\ forall d, within (Some d) (Some d) d = true.
Proof.
  split.
  - unfold filter_by_date_range.
    now rewrite (filter_by_date_range_loop_within strptime _ _ lo hi).
  - intro d. unfold within.
    now rewrite (lt_irrefl _ dt_ltb_swo d).
Qed.

Lemma filter_by_date_range_inclusive_witness :
  map id match filter_by_date_range strptime_iso sample_data
                 (Some "2025-01-05") (Some "2025-02-01") with
         | Ret l => l
         | Raise _ => []
         end
  = [2; 3; 4]%Z.
Proof.
  assert (Hd : Forall (fun t => strptime_iso (date t) <> None) sample_data).
  { repeat (constructor; [discriminate|]). constructor. }
  assert (Hlo : bound_parses strptime_iso (Some "2025-01-05")
                  (Some (mkDate 2025 1 5))).
  { split; [discriminate|reflexivity]. }
  assert (Hhi : bound_parses strptime_iso (Some "2025-02-01")
                  (Some (mkDate 2025 2 1))).
  { split; [discriminate|reflexivity]. }
  rewrite (proj1 (filter_by_date_range_inclusive strptime_iso sample_data
                    _ _ _ _ Hd Hlo Hhi)).
  reflexivity.
Defined.

(** X12: the bounds are parsed only when a record is compared with them.
    On the empty collection the call returns the empty list whatever the
    bounds are; on a collection that is not empty a start bound that does
    not parse makes the call raise; an end bound that does not parse goes
    unnoticed when every record lies before the start bound. *)
Theorem filter_by_date_range_bad_bounds (strptime : string -> option datetime)
    (start_date end_date : option string) :
  filter_by_date_range strptime [] start_date end_date = Ret []
  /\ (forall s txs,
        truthy start_date = Some s -> strptime s = None -> txs <> [] ->
        filter_by_date_range strptime txs start_date end_date
        = Raise ValueError)
  /\ (forall s sd txs,
        truthy start_date = Some s -> strptime s = Some sd ->
        Forall (fun t => exists dt, strptime (date t) = Some dt
                                    /\ dt_ltb dt sd = true) txs ->
        filter_by_date_range strptime txs start_date end_date = Ret []).
Proof.
  split; [reflexivity|]. split.
  - intros s txs Hs Hn Hne. destruct txs as [|t txs]; [congruence|].
    unfold filter_by_date_range. cbn [filter_by_date_range_loop].
    unfold to_dt at 1. destruct (strptime (date t)); [|reflexivity]. simpl.
    rewrite Hs. unfold to_dt at 1. now rewrite Hn.
  - intros s sd txs Hs Hsd Hall.
    now apply (filter_by_date_range_loop_before strptime _ _ s sd).
Qed.

Lemma filter_by_date_range_bad_bounds_witness :
  filter_by_date_range strptime_iso sample_data
    (Some "2026-01-01") (Some "never")
  = Ret [].
Proof.
  apply (proj2 (proj2 (filter_by_date_range_bad_bounds strptime_iso
                         (Some "2026-01-01") (Some "never")))
           "2026-01-01" (mkDate 2026 1 1) sample_data);
    try reflexivity.
  repeat (constructor; [eexists; split; reflexivity|]). constructor.
Defined.

(** ** list_transactions: failure and repeated sorting *)

Lemma sort_elts_ascending_id {T : Type} (lt : T -> T -> bool) (l : list T) :
  ascending lt l -> sort_elts lt l = l.
Proof.
  unfold ascending. induction 1 as [|x l Hs IH Hx]; [reflexivity|].
  cbn [sort_elts fold_right]. fold (sort_elts lt l). rewrite IH.
  destruct l as [|y l]; [reflexivity|].
  simpl. inversion Hx; subst. simpl in *.
  match goal with H : lt y x = false |- _ => now rewrite H end.
Qed.

Lemma sort_with_sorted_id {T : Type} (lt : T -> T -> bool) (reverse : bool)
    (l : list T) :
  (if reverse then descending lt l else ascending lt l) ->
  sort_with lt reverse l = l.
Proof.
  unfold sort_with. destruct reverse; intro H.
  - rewrite sort_elts_ascending_id; [apply rev_involutive|].
    apply (StronglySorted_rev (fun a b => lt a b = false)). exact H.
  - now apply sort_elts_ascending_id.
Qed.

(** X13: [list_transactions] raises only for the sort key ['date'], and
    then exactly when the date of some record does not parse; with any
    other key it returns, also for records whose date does not parse; and a
    sort key other than ['date'], ['amount'] and ['category'] sorts by id. *)
Theorem list_transactions_failure (strptime : string -> option datetime)
    (txs : list Transaction) (sort_key : option string) (reverse : bool) :
  (key_is sort_key "date" = false ->
   exists r, list_transactions strptime txs sort_key reverse = Ret r)
  /\ (key_is sort_key "date" = true ->
      (Exists (fun t => strptime (date t) = None) txs ->
       list_transactions strptime txs sort_key reverse = Raise ValueError)
      /\ (Forall (fun t => strptime (date t) <> None) txs ->
          exists r, list_transactions strptime txs sort_key reverse = Ret r))
  /\ (key_is sort_key "date" = false ->
      key_is sort_key "amount" = false ->
      key_is sort_key "category" = false ->
      list_transactions strptime txs sort_key reverse
      = list_transactions strptime txs None reverse).
Proof.
  split; [|split].
  - intro H. eexists. apply list_transactions_returns. now left.
  - intro H. split.
    + now apply list_transactions_raises.
    + intro Hall. eexists. apply list_transactions_returns. now right.
  - intros Hd Ha Hc. unfold list_transactions. now rewrite Hd, Ha, Hc.
Qed.

(** X14: sorting is idempotent: listing the result of a call again, with
    the same sort key and the same direction, returns it unchanged. *)
Theorem list_transactions_idempotent (strptime : string -> option datetime)
    (txs r : list Transaction) (sort_key : option string) (reverse : bool)
    (H : list_transactions strptime txs sort_key reverse = Ret r) :
  list_transactions strptime r sort_key reverse = Ret r.
Proof.
  pose proof (list_transactions_Ret_ok _ _ _ _ _ H) as Hok.
  apply list_transactions_Ret_inv in H.
  assert (HP : Permutation r txs)
    by (subst r; apply sort_with_perm).
  assert (Hok' : key_is sort_key "date" = false
                 \/ Forall (fun t => strptime (date t) <> None) r).
  { destruct Hok as [Hk|Hall]; [now left|right].
    eapply Permutation_Forall; [symmetry; exact HP|exact Hall]. }
  rewrite (list_transactions_returns strptime r sort_key reverse Hok').
  f_equal. apply sort_with_sorted_id. subst r.
  apply (sort_with_ordered _ (key_lt_swo strptime sort_key)).
Qed.

Lemma list_transactions_idempotent_witness :
  exists r,
    list_transactions strptime_iso sample_data (Some "amount") true = Ret r
    /\ list_transactions strptime_iso r (Some "amount") true = Ret r.
Proof.
  eexists.
  assert (H : list_transactions strptime_iso sample_data (Some "amount") true
              = Ret (sort_with (key_lt strptime_iso (Some "amount")) true
                       sample_data)).
  { apply list_transactions_returns. now left. }
  split; [exact H|].
  exact (list_transactions_idempotent strptime_iso sample_data _ _ _ H).
Defined.

(** ** More on balance_summary *)

Lemma Qadd_nonneg (a b : Q) : 0 <= a -> 0 <= b -> 0 <= a + b.
Proof. intros. lra. Qed.

Lemma total_where_nonneg (p : Transaction -> bool) (f : Transaction -> Q)
    (l : list Transaction) :
  (forall t, p t = true -> 0 <= f t) -> 0 <= total_where p f l.
Proof.
  intro H. induction l as [|t l IH]; simpl; [apply Qle_refl|].
  destruct (p t) eqn:E.
  - apply Qadd_nonneg; [now apply H|exact IH].
  - rewrite Qplus_0_l. exact IH.
Qed.



Lemma magnitude_nonneg (t : Transaction) :
  is_negative t = true -> 0 <= magnitude t.
Proof.
  unfold is_negative, magnitude. intro H. apply Qltb_lt in H.
  apply Qlt_le_weak in H. apply Qopp_le_compat in H. exact H.
Qed.

Lemma bs_expenses_nonneg (txs : list Transaction) :
  0 <= bs_expenses (balance_summary txs).
Proof.
  destruct (balance_summary_totals txs) as (_ & He & _). cbv zeta in He.
  rewrite He.
  repeat apply Qadd_nonneg; apply total_where_nonneg; intros t Ht;
    apply andb_true_iff in Ht; destruct Ht as [_ Ht].
  - apply negb_true_iff in Ht. now apply Qltb_ge.
  - now apply magnitude_nonneg.
  - now apply magnitude_nonneg.
Qed.

(** X16: the expenses are never negative, whatever the signs of the
    amounts, and so the savings never exceed the income. *)
Theorem balance_summary_expenses_nonneg (txs : list Transaction) :
  0 <= bs_expenses (balance_summary txs)
  /\ bs_savings (balance_summary txs) <= bs_income (balance_summary txs).
Proof.
  pose proof (bs_expenses_nonneg txs) as H.
  split; [exact H|].
  destruct (balance_summary_totals txs) as (_ & _ & Hs). cbv zeta in Hs.
  rewrite Hs. lra.
Qed.




(** ** More on persistence *)

Section CandidatesTheory.

Variable DEFAULT_SAVE_FILE : string.
Variable temp_path : string -> string.

Lemma candidates_In (filename p : string) :
  In p (candidates DEFAULT_SAVE_FILE temp_path filename) <->
  p = filename \/ p = DEFAULT_SAVE_FILE \/ p = temp_path filename.
Proof.
  unfold candidates.
  destruct (String.eqb_spec filename DEFAULT_SAVE_FILE) as [E|E]; simpl.
  - rewrite orb_false_r.
    destruct (String.eqb_spec (temp_path filename) filename) as [F|F]; simpl.
    + intuition congruence.
    + intuition congruence.
  - rewrite orb_false_r.
    destruct (String.eqb_spec (temp_path filename) filename) as [F|F]; simpl.
    + intuition congruence.
    + destruct (String.eqb_spec (temp_path filename) DEFAULT_SAVE_FILE)
        as [G|G]; simpl; intuition congruence.
Qed.

Lemma candidates_NoDup (filename : string) :
  NoDup (candidates DEFAULT_SAVE_FILE temp_path filename).
Proof.
  unfold candidates.
  destruct (String.eqb_spec filename DEFAULT_SAVE_FILE) as [E|E]; simpl.
  - rewrite orb_false_r.
    destruct (String.eqb_spec (temp_path filename) filename) as [F|F]; simpl;
      repeat (constructor; [simpl; intuition congruence|]); constructor.
  - rewrite orb_false_r.
    destruct (String.eqb_spec (temp_path filename) filename) as [F|F]; simpl.
    + repeat (constructor; [simpl; intuition congruence|]); constructor.
    + destruct (String.eqb_spec (temp_path filename) DEFAULT_SAVE_FILE)
        as [G|G]; simpl;
        repeat (constructor; [simpl; intuition congruence|]); constructor.
Qed.

End CandidatesTheory.

Section LoadTheory.

Variable int_of_str : string -> option Z.
Variable float_of_str : string -> option Q.
Variable repr : json -> string.
Variable DEFAULT_SAVE_FILE : string.
Variable temp_path : string -> string.

Let loop := load_loop int_of_str float_of_str repr.
Let read := read_candidate int_of_str float_of_str repr.

Lemma load_loop_skips (w : world) (pre rest : list string)
    (log : list message) :
  Forall (harmless w) pre ->
  loop w (pre ++ rest) log
  = loop w rest (log ++ flat_map (warning_of w) pre).
Proof.
  intro H. revert log.
  induction H as [|p pre Hp _ IH]; intro log; simpl.
  - now rewrite app_nil_r.
  - unfold loop in *. cbn [load_loop].
    unfold read_candidate, open_read, warning_of.
    destruct Hp as [Hp|[Hp|Hp]]; rewrite Hp; simpl.
    + apply IH.
    + rewrite IH, <- app_assoc. reflexivity.
    + rewrite IH, <- app_assoc. reflexivity.
Qed.

Lemma read_candidate_exists (w : world) (p : string)
    (l : list Transaction) :
  read w p = Ret l -> files w p <> None.
Proof.
  unfold read, read_candidate, open_read.
  destruct (files w p); [discriminate|]. simpl. discriminate.
Qed.

Lemma read_candidate_raise_exists (w : world) (p : string) (e : exn) :
  read w p = Raise e -> e <> OSError -> files w p <> None.
Proof.
  unfold read, read_candidate, open_read.
  destruct (files w p); [discriminate|]. simpl. congruence.
Qed.

Lemma load_loop_decides (w : world) (pre rest : list string) (p : string)
    (log : list message) :
  Forall (harmless w) pre ->
  (forall l, read w p = Ret l ->
     loop w (pre ++ p :: rest) log
     = (Ret l, log ++ flat_map (warning_of w) pre)%list)
  /\ (forall e, read w p = Raise e -> e <> OSError -> e <> JSONDecodeError ->
        loop w (pre ++ p :: rest) log
        = (Raise e, log ++ flat_map (warning_of w) pre)%list).
Proof.
  intro H. rewrite (load_loop_skips w pre (p :: rest) log H).
  unfold loop. split.
  - intros l Hl. pose proof (read_candidate_exists w p l Hl) as He.
    cbn [load_loop]. unfold read in Hl.
    destruct (files w p); [|congruence]. now rewrite Hl.
  - intros e Hr H1 H2.
    pose proof (read_candidate_raise_exists w p e Hr H1) as He.
    cbn [load_loop]. unfold read in Hr.
    destruct (files w p); [|congruence]. rewrite Hr.
    destruct e; congruence.
Qed.

Lemma load_loop_all_harmless (w : world) (paths : list string)
    (log : list message) :
  Forall (harmless w) paths ->
  loop w paths log = (Ret [], log ++ flat_map (warning_of w) paths)%list.
Proof.
  intro H. rewrite <- (app_nil_r paths) at 1.
  now rewrite (load_loop_skips w paths [] log H).
Qed.

End LoadTheory.

(** X20: the candidates of a load are the requested path, the default path
    and the path in the temporary directory, the requested path first, and
    no path is tried twice. *)
Theorem candidates_distinct (DEFAULT_SAVE_FILE : string)
    (temp_path : string -> string) (filename : string) :
  NoDup (candidates DEFAULT_SAVE_FILE temp_path filename)
  /\ (exists rest,
        candidates DEFAULT_SAVE_FILE temp_path filename = filename :: rest)
  /\ forall p, In p (candidates DEFAULT_SAVE_FILE temp_path filename) <->
               p = filename \/ p = DEFAULT_SAVE_FILE
               \/ p = temp_path filename.
Proof.
  split; [apply candidates_NoDup|]. split.
  - apply candidates_head.
  - intro p. apply candidates_In.
Qed.

(** X21: the first candidate that is not absent, unreadable or invalid JSON
    decides the call: its records are returned, or the exception of its
    conversion is raised, and the candidates after it are not looked at; the
    only diagnostics are the warnings of the candidates skipped before it. *)
Theorem load_transactions_first_decides (int_of_str : string -> option Z)
    (float_of_str : string -> option Q) (repr : json -> string)
    (DEFAULT_SAVE_FILE : string) (temp_path : string -> string)
    (filename : string) (w : world) (pre rest : list string) (p : string)
    (Hc : candidates DEFAULT_SAVE_FILE temp_path filename
          = (pre ++ p :: rest)%list)
    (Hpre : Forall (harmless w) pre) :
  (forall l,
     read_candidate int_of_str float_of_str repr w p = Ret l ->
     load_transactions int_of_str float_of_str repr DEFAULT_SAVE_FILE
       temp_path filename w
     = (Ret l, flat_map (warning_of w) pre))
  /\ (forall e,
        read_candidate int_of_str float_of_str repr w p = Raise e ->
        e <> OSError -> e <> JSONDecodeError ->
        load_transactions int_of_str float_of_str repr DEFAULT_SAVE_FILE
          temp_path filename w
        = (Raise e, flat_map (warning_of w) pre)).
Proof.
  unfold load_transactions. rewrite Hc.
  exact (load_loop_decides int_of_str float_of_str repr w pre rest p [] Hpre).
Qed.

Lemma load_transactions_first_decides_witness :
  let w := put_file world_recoverable "/tmp/data.json"
             (Some (Readable (Doc (JArray (map to_dict txs2))))) in
  load_transactions (fun _ => None) (fun _ => None) (fun _ => EmptyString)
    demo_default demo_temp_path "data.json" w
  = (Ret txs2, [WarnJson "data.json"; WarnRead demo_default]).
Proof.
  intro w.
  assert (Hc : candidates demo_default demo_temp_path "data.json"
               = (["data.json"; demo_default] ++ "/tmp/data.json" :: [])%list)
    by reflexivity.
  assert (Hpre : Forall (harmless w) ["data.json"; demo_default]).
  { constructor; [right; right; reflexivity|].
    constructor; [right; left; reflexivity|constructor]. }
  apply (proj1 (load_transactions_first_decides (fun _ => None)
                  (fun _ => None) (fun _ => EmptyString) demo_default
                  demo_temp_path "data.json" w _ _ _ Hc Hpre)).
  reflexivity.
Defined.

(** X22: when every candidate is absent, unreadable or invalid JSON, the
    result is the empty collection, and one warning is printed for each
    candidate that exists, in the order of the candidates. *)
Theorem load_transactions_all_fail (int_of_str : string -> option Z)
    (float_of_str : string -> option Q) (repr : json -> string)
    (DEFAULT_SAVE_FILE : string) (temp_path : string -> string)
    (filename : string) (w : world)
    (H : Forall (harmless w)
           (candidates DEFAULT_SAVE_FILE temp_path filename)) :
  load_transactions int_of_str float_of_str repr DEFAULT_SAVE_FILE temp_path
    filename w
  = (Ret [],
     flat_map (warning_of w)
       (candidates DEFAULT_SAVE_FILE temp_path filename)).
Proof.
  unfold load_transactions.
  exact (load_loop_all_harmless int_of_str float_of_str repr w _ [] H).
Qed.

Lemma load_transactions_all_fail_witness :
  load_transactions (fun _ => None) (fun _ => None) (fun _ => EmptyString)
    demo_default demo_temp_path "data.json" empty_world
  = (Ret [], []).
Proof.
  apply (load_transactions_all_fail (fun _ => None) (fun _ => None)
           (fun _ => EmptyString) demo_default demo_temp_path "data.json"
           empty_world).
  repeat (constructor; [left; reflexivity|]). constructor.
Defined.


Lemma read_candidate_saved (int_of_str : string -> option Z)
    (float_of_str : string -> option Q) (repr : json -> string)
    (w : world) (p : string) (txs : list Transaction) :
  files w p = Some (Readable (Doc (JArray (map to_dict txs)))) ->
  read_candidate int_of_str float_of_str repr w p = Ret txs.
Proof.
  intro H. unfold read_candidate, open_read. rewrite H. simpl.
  apply mapM_from_dict_to_dict.
Qed.



(** X24: paths name files one to one.  When the write test fails for a
    requested path that holds an older saved collection, while the path in
    the temporary directory is another path and can be written, the save
    succeeds, in the temporary directory, but a load of the requested path
    afterwards returns the older collection, not the one just saved. *)
Theorem save_fallback_is_shadowed (int_of_str : string -> option Z)
    (float_of_str : string -> option Q) (repr : json -> string)
    (DEFAULT_SAVE_FILE : string) (temp_path probe_path : string -> string)
    (txs old : list Transaction) (filename : string) (w : world)
    (Hprobe : probe_ok w filename = false)
    (Hwrite : write_ok w (temp_path filename) = true)
    (Hother : temp_path filename <> filename)
    (Hfile : files w filename
             = Some (Readable (Doc (JArray (map to_dict old))))) :
  let res := save_transactions temp_path probe_path txs filename w in
  res = (true, snd (fst res),
         [InfoSavedElsewhere filename (temp_path filename)])
  /\ load_transactions int_of_str float_of_str repr DEFAULT_SAVE_FILE
       temp_path filename (snd (fst res))
     = (Ret old, []).
Proof.
  unfold save_transactions, _preferred_writable_path.
  rewrite Hprobe. simpl. rewrite Hwrite. simpl.
  apply String.eqb_neq in Hother. rewrite Hother. simpl.
  split; [reflexivity|].
  unfold load_transactions.
  destruct (candidates_head DEFAULT_SAVE_FILE temp_path filename) as [rest ->].
  set (w2 := put_file w (temp_path filename) _).
  destruct (load_loop_decides int_of_str float_of_str repr w2 [] rest
              filename [] (Forall_nil _)) as [Hret _].
  apply (Hret old). apply read_candidate_saved. simpl.
  rewrite String.eqb_sym, Hother. exact Hfile.
Qed.

Lemma save_fallback_is_shadowed_witness :
  let w := mkWorld
             (fun p => if String.eqb p "data.json"
                       then Some (Readable (Doc (JArray (map to_dict txs2))))
                       else None)
             (fun _ => false) (fun _ => true) in
  let res := save_transactions demo_temp_path demo_probe_path sample_data
               "data.json" w in
  load_transactions (fun _ => None) (fun _ => None) (fun _ => EmptyString)
    demo_default demo_temp_path "data.json" (snd (fst res))
  = (Ret txs2, []).
Proof.
  intros w res.
  assert (Hother : demo_temp_path "data.json" <> "data.json")
    by (simpl; discriminate).
  exact (proj2 (save_fallback_is_shadowed (fun _ => None) (fun _ => None)
                  (fun _ => EmptyString) demo_default demo_temp_path
                  demo_probe_path sample_data txs2 "data.json" w
                  eq_refl eq_refl Hother eq_refl)).
Defined.

(** ** from_dict *)

(** X25: [from_dict] raises [TypeError] on a value that is not an object and
    [KeyError] on an object without the key [id]; on an object it returns a
    record exactly when the keys [id], [date] and [amount] are present and
    the id and the amount convert to numbers; the keys [category], [ttype]
    and [description] may be missing and then stand for the empty text,
    ['expense'] and the empty text. *)
Theorem from_dict_required_keys (int_of_str : string -> option Z)
    (float_of_str : string -> option Q) (repr : json -> string) :
  (forall d, (forall m, d <> JObject m) ->
     from_dict int_of_str float_of_str repr d = Raise TypeError)
  /\ (forall m, assoc m "id" = None ->
        from_dict int_of_str float_of_str repr (JObject m) = Raise KeyError)
  /\ (forall m t,
        from_dict int_of_str float_of_str repr (JObject m) = Ret t <->
        exists vi vd va i a,
          assoc m "id" = Some vi /\ py_int int_of_str vi = Ret i
          /\ assoc m "date" = Some vd
          /\ assoc m "amount" = Some va /\ py_float float_of_str va = Ret a
          /\ t = mkTransaction i (py_str repr vd) a
                   (py_str repr (value_or (assoc m "category")
                                          (JString EmptyString)))
                   (py_str repr (value_or (assoc m "ttype")
                                          (JString "expense")))
                   (py_str repr (value_or (assoc m "description")
                                          (JString EmptyString)))).
Proof.
  split; [|split].
  - intros d Hd. destruct d; try reflexivity.
    exfalso. eapply Hd. reflexivity.
  - intros m H. unfold from_dict, getitem. rewrite H. reflexivity.
  - intros m t. unfold from_dict, getitem, get, value_or. split.
    + destruct (assoc m "id") as [vi|]; simpl; [|discriminate].
      destruct (py_int int_of_str vi) as [i|] eqn:Ei; simpl; [|discriminate].
      destruct (assoc m "date") as [vd|]; simpl; [|discriminate].
      destruct (assoc m "amount") as [va|]; simpl; [|discriminate].
      destruct (py_float float_of_str va) as [a|] eqn:Ea; simpl;
        [|discriminate].
      intro H. exists vi, vd, va, i, a.
      destruct (assoc m "category"), (assoc m "ttype"),
        (assoc m "description"); simpl in H; inversion H; auto 10.
    + intros (vi & vd & va & i & a & H1 & H2 & H3 & H4 & H5 & ->).
      rewrite H1. simpl. rewrite H2. simpl. rewrite H3. simpl.
      rewrite H4. simpl. rewrite H5. simpl.
      destruct (assoc m "category"), (assoc m "ttype"),
        (assoc m "description"); reflexivity.
Qed.

(** ** Sorting and filtering together *)

Section SortFilter.

Context {T : Type}.
Variable lt : T -> T -> bool.
Hypothesis lt_swo : strict_weak_order lt.
Variable p : T -> bool.

Lemma insert_elt_filter (x : T) (l : list T) :
  ascending lt l ->
  filter p (insert_elt lt x l)
  = if p x then insert_elt lt x (filter p l) else filter p l.
Proof.
  unfold ascending. induction 1 as [|y l Hs IH Hy]; simpl.
  - destruct (p x); reflexivity.
  - destruct (lt y x) eqn:E; simpl.
    + rewrite IH. destruct (p y), (p x); simpl; try reflexivity.
      now rewrite E.
    + destruct (p x) eqn:Px; [|reflexivity].
      destruct (p y) eqn:Py; simpl.
      * now rewrite E.
      * assert (Hx : Forall (fun z => lt z x = false) (filter p l)).
        { apply Forall_forall. intros z Hz. apply filter_In in Hz.
          destruct Hz as [Hz _]. rewrite Forall_forall in Hy.
          specialize (Hy z Hz). simpl in Hy.
          destruct (lt z x) eqn:Ez; [|reflexivity].
          destruct (swo_cotrans lt lt_swo z y x Ez); congruence. }
        destruct (filter p l) as [|z r]; [reflexivity|].
        simpl. inversion Hx; subst.
        match goal with H : lt z x = false |- _ => now rewrite H end.
Qed.

Lemma sort_elts_filter (l : list T) :
  filter p (sort_elts lt l) = sort_elts lt (filter p l).
Proof.
  induction l as [|x l IH]; [reflexivity|].
  cbn [sort_elts fold_right filter]. fold (sort_elts lt l).
  rewrite insert_elt_filter by apply (sort_elts_ascending lt lt_swo).
  rewrite IH. destruct (p x); reflexivity.
Qed.

Lemma sort_with_filter (reverse : bool) (l : list T) :
  filter p (sort_with lt reverse l) = sort_with lt reverse (filter p l).
Proof.
  unfold sort_with. destruct reverse.
  - now rewrite filter_rev, sort_elts_filter, filter_rev.
  - apply sort_elts_filter.
Qed.

End SortFilter.

Lemma find_by_id_unique (txs : list Transaction) (t : Transaction) :
  NoDup (map id txs) -> In t txs -> find_by_id txs (id t) = Some t.
Proof.
  intros Hnd Ht.
  apply in_split in Ht. destruct Ht as (l1 & l2 & ->).
  apply find_by_id_first.
  rewrite map_app in Hnd. simpl in Hnd. apply NoDup_remove_2 in Hnd.
  apply Forall_forall. intros u Hu E. apply Hnd.
  apply in_or_app. left. rewrite <- E. now apply in_map.
Qed.

(** X28: when the ids are pairwise distinct a lookup by id does not depend
    on the order of the records; in particular it gives the same record in
    every listing of the collection. *)
Theorem find_by_id_any_order (txs txs' : list Transaction) (tid : Z)
    (Hnd : NoDup (map id txs)) (HP : Permutation txs txs') :
  find_by_id txs' tid = find_by_id txs tid
  /\ forall strptime sort_key reverse r,
       list_transactions strptime txs sort_key reverse = Ret r ->
       find_by_id r tid = find_by_id txs tid.
Proof.
  assert (G : forall l', Permutation txs l' ->
                         find_by_id l' tid = find_by_id txs tid).
  { intros l' Hl'.
    assert (Hnd' : NoDup (map id l')).
    { eapply Permutation_NoDup; [|exact Hnd]. now apply Permutation_map. }
    destruct (find_by_id txs tid) as [t|] eqn:E.
    - apply find_by_id_some in E. destruct E as (l1 & l2 & E & Et & _).
      subst tid. apply find_by_id_unique; [exact Hnd'|].
      eapply Permutation_in; [exact Hl'|]. rewrite E.
      apply in_or_app. right. now left.
    - apply find_by_id_none. apply find_by_id_none in E.
      eapply Permutation_Forall; eassumption. }
  split; [now apply G|].
  intros strptime sort_key reverse r Hr. apply G.
  apply list_transactions_Ret_inv in Hr. subst r.
  symmetry. apply sort_with_perm.
Qed.

Lemma find_by_id_any_order_witness :
  find_by_id (rev sample_data) 3 = find_by_id sample_data 3.
Proof.
  assert (Hnd : NoDup (map id sample_data)).
  { simpl. repeat (constructor; [simpl; intuition discriminate|]).
    constructor. }
  exact (proj1 (find_by_id_any_order sample_data (rev sample_data) 3%Z Hnd
                  (Permutation_rev sample_data))).
Defined.

(** * Properties of the program on IEEE doubles *)

(** ** The order of the doubles *)

Lemma SFcompare_rank (x y : spec_float) :
  sf_nan x = false -> sf_nan y = false ->
  match SFcompare x y with
  | Some Lt => lex_lt (sf_rank x) (sf_rank y)
  | Some Eq => sf_rank x = sf_rank y
  | Some Gt => lex_lt (sf_rank y) (sf_rank x)
  | None => False
  end.
Proof.
  destruct x as [[]|[]| |[] m1 e1], y as [[]|[]| |[] m2 e2];
    simpl; intros Hx Hy; try discriminate; try reflexivity; try lia.
  - destruct (Z.compare_spec e1 e2) as [E|E|E]; simpl; try lia.
    fold (Pos.compare m1 m2).
    destruct (Pos.compare_spec m1 m2) as [F|F|F]; simpl; subst;
      try reflexivity; lia.
  - destruct (Z.compare_spec e1 e2) as [E|E|E]; simpl; try lia.
    fold (Pos.compare m1 m2).
    destruct (Pos.compare_spec m1 m2) as [F|F|F]; simpl; subst;
      try reflexivity; lia.
Qed.

Lemma SFcompare_nan (x y : spec_float) :
  sf_nan x = true \/ sf_nan y = true -> SFcompare x y = None.
Proof.
  destruct x as [[]|[]| |[] m1 e1], y as [[]|[]| |[] m2 e2];
    simpl; intros [H|H]; try discriminate; reflexivity.
Qed.

Lemma lex_lt_irrefl (a : Z * Z * Z) : ~ lex_lt a a.
Proof. destruct a as [[a1 a2] a3]. simpl. lia. Qed.

Lemma lex_lt_asym (a b : Z * Z * Z) : lex_lt a b -> ~ lex_lt b a.
Proof. destruct a as [[a1 a2] a3], b as [[b1 b2] b3]. simpl. lia. Qed.

Lemma lex_lt_trans (a b c : Z * Z * Z) : lex_lt a b -> lex_lt b c -> lex_lt a c.
Proof.
  destruct a as [[a1 a2] a3], b as [[b1 b2] b3], c as [[c1 c2] c3].
  simpl. lia.
Qed.

Lemma lex_lt_total (a b : Z * Z * Z) : lex_lt a b \/ a = b \/ lex_lt b a.
Proof.
  destruct a as [[a1 a2] a3], b as [[b1 b2] b3]. simpl.
  destruct (Z.lt_total a1 b1) as [H|[H|H]]; [lia| |lia].
  destruct (Z.lt_total a2 b2) as [H2|[H2|H2]]; [lia| |lia].
  destruct (Z.lt_total a3 b3) as [H3|[H3|H3]]; [lia| |lia].
  right. left. congruence.
Qed.

Lemma is_nan_spec (x : float) : PrimFloat.is_nan x = sf_nan (Prim2SF x).
Proof.
  unfold PrimFloat.is_nan. rewrite eqb_spec. unfold SFeqb.
  destruct (sf_nan (Prim2SF x)) eqn:E.
  - rewrite SFcompare_nan by now left. reflexivity.
  - pose proof (SFcompare_rank _ _ E E) as H.
    destruct (SFcompare (Prim2SF x) (Prim2SF x)) as [[]|];
      try reflexivity; try contradiction;
      exfalso; exact (lex_lt_irrefl _ H).
Qed.

Lemma ltb_rank (x y : float) :
  PrimFloat.ltb x y = true <->
  PrimFloat.is_nan x = false /\ PrimFloat.is_nan y = false
  /\ lex_lt (rank x) (rank y).
Proof.
  rewrite ltb_spec, !is_nan_spec. unfold SFltb, rank.
  destruct (sf_nan (Prim2SF x)) eqn:Ex.
  { rewrite SFcompare_nan by now left. intuition discriminate. }
  destruct (sf_nan (Prim2SF y)) eqn:Ey.
  { rewrite SFcompare_nan by now right. intuition discriminate. }
  pose proof (SFcompare_rank _ _ Ex Ey) as H.
  destruct (SFcompare (Prim2SF x) (Prim2SF y)) as [[]|].
  - split; [discriminate|]. intros (_ & _ & L). rewrite H in L.
    exfalso. exact (lex_lt_irrefl _ L).
  - tauto.
  - split; [discriminate|]. intros (_ & _ & L).
    exfalso. exact (lex_lt_asym _ _ H L).
  - contradiction.
Qed.

Lemma leb_rank (x y : float) :
  PrimFloat.leb x y = true <->
  PrimFloat.is_nan x = false /\ PrimFloat.is_nan y = false
  /\ (lex_lt (rank x) (rank y) \/ rank x = rank y).
Proof.
  rewrite leb_spec, !is_nan_spec. unfold SFleb, rank.
  destruct (sf_nan (Prim2SF x)) eqn:Ex.
  { rewrite SFcompare_nan by now left. intuition discriminate. }
  destruct (sf_nan (Prim2SF y)) eqn:Ey.
  { rewrite SFcompare_nan by now right. intuition discriminate. }
  pose proof (SFcompare_rank _ _ Ex Ey) as H.
  destruct (SFcompare (Prim2SF x) (Prim2SF y)) as [[]|].
  - tauto.
  - tauto.
  - split; [discriminate|]. intros (_ & _ & [L|L]).
    + exfalso. exact (lex_lt_asym _ _ H L).
    + rewrite L in H. exfalso. exact (lex_lt_irrefl _ H).
  - contradiction.
Qed.

Lemma float_ltb_asym (a b : float) :
  PrimFloat.ltb a b = true -> PrimFloat.ltb b a = false.
Proof.
  intro H. apply ltb_rank in H. destruct H as (_ & _ & L).
  apply Bool.not_true_iff_false. rewrite ltb_rank. intros (_ & _ & L').
  exact (lex_lt_asym _ _ L L').
Qed.

Lemma float_ltb_cotrans (a b c : float) :
  PrimFloat.is_nan b = false -> PrimFloat.ltb a c = true ->
  PrimFloat.ltb a b = true \/ PrimFloat.ltb b c = true.
Proof.
  intros Hb H. apply ltb_rank in H. destruct H as (Ha & Hc & L).
  rewrite !ltb_rank.
  destruct (lex_lt_total (rank a) (rank b)) as [H|[H|H]].
  - left. auto.
  - right. rewrite <- H. auto.
  - right. repeat split; try assumption. eapply lex_lt_trans; eassumption.
Qed.

Lemma float_leb_ltb_trans (a b c : float) :
  PrimFloat.leb a b = true -> PrimFloat.ltb b c = true ->
  PrimFloat.ltb a c = true.
Proof.
  intros H1 H2. apply leb_rank in H1. apply ltb_rank in H2.
  destruct H1 as (Ha & Hb & H1), H2 as (_ & Hc & H2).
  apply ltb_rank. repeat split; try assumption.
  destruct H1 as [H1|H1].
  - eapply lex_lt_trans; eassumption.
  - now rewrite H1.
Qed.

Lemma is_nan_abs (a : float) :
  PrimFloat.is_nan (PrimFloat.abs a) = PrimFloat.is_nan a.
Proof.
  rewrite !is_nan_spec, abs_spec. now destruct (Prim2SF a).
Qed.

Lemma float_abs_above_negative (th a : float) :
  PrimFloat.ltb th 0%float = true -> PrimFloat.is_nan a = false ->
  PrimFloat.ltb th (PrimFloat.abs a) = true.
Proof.
  intros H Ha. apply ltb_rank in H. destruct H as (Hth & _ & L).
  apply ltb_rank. rewrite is_nan_abs. repeat split; try assumption.
  unfold rank in *. rewrite abs_spec.
  change (Prim2SF 0%float) with (S754_zero false) in L.
  destruct (sf_rank (Prim2SF th)) as [[t1 t2] t3].
  destruct (Prim2SF a) as [s|s| |s m e]; simpl in *; lia.
Qed.

Lemma nan_last_ltb_agree (a b : float) :
  PrimFloat.is_nan a = false -> PrimFloat.is_nan b = false ->
  nan_last_ltb a b = PrimFloat.ltb a b.
Proof. intros Ha Hb. unfold nan_last_ltb. now rewrite Ha, Hb. Qed.

Lemma nan_last_ltb_swo : strict_weak_order nan_last_ltb.
Proof.
  split.
  - intros a b. unfold nan_last_ltb.
    destruct (PrimFloat.is_nan a) eqn:Ea; [discriminate|].
    destruct (PrimFloat.is_nan b) eqn:Eb; [reflexivity|].
    apply float_ltb_asym.
  - intros a b c. unfold nan_last_ltb.
    destruct (PrimFloat.is_nan a) eqn:Ea; [discriminate|].
    destruct (PrimFloat.is_nan b) eqn:Eb; [now left|].
    destruct (PrimFloat.is_nan c) eqn:Ec; [now right|].
    now apply float_ltb_cotrans.
Qed.

(** ** Sorting with an order that is one only on the elements at hand *)

Lemma insert_elt_agree {T : Type} (lt lt' : T -> T -> bool) (x : T)
    (s : list T) :
  (forall y, In y s -> lt y x = lt' y x) ->
  insert_elt lt x s = insert_elt lt' x s.
Proof.
  induction s as [|y s IH]; intro H; simpl; [reflexivity|].
  rewrite <- (H y (or_introl eq_refl)).
  destruct (lt y x); [|reflexivity].
  rewrite IH; [reflexivity|]. intros z Hz. apply H. now right.
Qed.

Lemma sort_elts_agree {T : Type} (lt lt' : T -> T -> bool) (l : list T) :
  (forall a b, In a l -> In b l -> lt a b = lt' a b) ->
  sort_elts lt l = sort_elts lt' l.
Proof.
  induction l as [|x l IH]; intro H; [reflexivity|].
  cbn [sort_elts fold_right].
  fold (sort_elts lt l). fold (sort_elts lt' l).
  rewrite IH by (intros a b Ha Hb; apply H; now right).
  apply insert_elt_agree. intros y Hy. apply H; [right|now left].
  eapply Permutation_in; [apply sort_elts_perm|exact Hy].
Qed.

Lemma sort_with_agree {T : Type} (lt lt' : T -> T -> bool) (reverse : bool)
    (l : list T) :
  (forall a b, In a l -> In b l -> lt a b = lt' a b) ->
  sort_with lt reverse l = sort_with lt' reverse l.
Proof.
  intro H. unfold sort_with. destruct reverse.
  - rewrite (sort_elts_agree lt lt' (rev l)); [reflexivity|].
    intros a b Ha Hb. apply H; now apply in_rev.
  - now apply sort_elts_agree.
Qed.

Lemma StronglySorted_agree {T : Type} (R R' : T -> T -> Prop) (l : list T) :
  (forall a b, In a l -> In b l -> R a b -> R' a b) ->
  StronglySorted R l -> StronglySorted R' l.
Proof.
  intros H Hs. induction Hs as [|x l Hs IH Hx]; constructor.
  - apply IH. intros a b Ha Hb. apply H; now right.
  - rewrite Forall_forall in *. intros y Hy.
    apply H; [now left|now right|now apply Hx].
Qed.

Lemma ForallOrdPairs_agree {T : Type} (R R' : T -> T -> Prop) (l : list T) :
  (forall a b, In a l -> In b l -> R a b -> R' a b) ->
  ForallOrdPairs R l -> ForallOrdPairs R' l.
Proof.
  intros H Hs. induction Hs as [|x l Hx Hs IH]; constructor.
  - rewrite Forall_forall in *. intros y Hy.
    apply H; [now left|now right|now apply Hx].
  - apply IH. intros a b Ha Hb. apply H; now right.
Qed.

(** ** list_transactions on doubles *)

Section FloatListTransactions.

Variable strptime : string -> option datetime.
Variable lower : string -> string.

Let LT := Float64.list_transactions strptime lower.
Let klt := Float64.key_lt strptime lower.
Let klt' := key_lt_total strptime lower.

Lemma key_lt_total_swo (sort_key : option string) :
  strict_weak_order (klt' sort_key).
Proof.
  unfold klt', key_lt_total.
  destruct (key_is sort_key "date");
    [exact (swo_on_key dt_ltb (Float64.date_key strptime) dt_ltb_swo)|].
  destruct (key_is sort_key "amount");
    [exact (swo_on_key nan_last_ltb Float64.amount nan_last_ltb_swo)|].
  destruct (key_is sort_key "category");
    [exact (swo_on_key String.ltb (fun t => lower (Float64.category t))
              string_ltb_swo)|].
  exact (swo_on_key Z.ltb Float64.id Z_ltb_swo).
Qed.

Lemma key_lt_agree (sort_key : option string)
    (txs : list Float64.Transaction) :
  ~ Float64.nan_keys sort_key txs ->
  forall a b, In a txs -> In b txs -> klt sort_key a b = klt' sort_key a b.
Proof.
  intros Hn a b Ha Hb. unfold klt, klt', Float64.key_lt, key_lt_total.
  destruct (key_is sort_key "date"); [reflexivity|].
  destruct (key_is sort_key "amount") eqn:E; [|reflexivity].
  assert (Hnan : forall t, In t txs ->
                           PrimFloat.is_nan (Float64.amount t) = false).
  { intros t Ht. destruct (PrimFloat.is_nan (Float64.amount t)) eqn:N;
      [|reflexivity].
    exfalso. apply Hn. split; [exact E|]. apply Exists_exists. eauto. }
  symmetry. apply nan_last_ltb_agree; now apply Hnan.
Qed.

Lemma float_to_dt_date_key (t : Float64.Transaction) :
  strptime (Float64.date t) <> None ->
  Float64.to_dt strptime (Float64.date t)
  = Ret (Float64.date_key strptime t).
Proof.
  unfold Float64.to_dt, Float64.date_key.
  destruct (strptime (Float64.date t)); congruence.
Qed.

Lemma float_list_transactions_returns (txs : list Float64.Transaction)
    (sort_key : option string) (reverse : bool) :
  key_is sort_key "date" = false
  \/ Forall (fun t => strptime (Float64.date t) <> None) txs ->
  LT txs sort_key reverse = Ret (sort_with (klt sort_key) reverse txs).
Proof.
  intro H. unfold LT, klt, Float64.list_transactions, Float64.key_lt.
  destruct (key_is sort_key "date") eqn:Ed.
  - destruct H as [H|H]; [discriminate|]. rewrite Forall_forall in H.
    apply (sorted_total dt_ltb (Float64.date_key strptime)).
    intros t Ht. apply float_to_dt_date_key. now apply H.
  - destruct (key_is sort_key "amount").
    { now apply (sorted_total PrimFloat.ltb Float64.amount). }
    destruct (key_is sort_key "category").
    { now apply (sorted_total String.ltb
                   (fun t => lower (Float64.category t))). }
    now apply (sorted_total Z.ltb Float64.id).
Qed.

Lemma float_list_transactions_Ret_ok (txs r : list Float64.Transaction)
    (sort_key : option string) (reverse : bool) :
  LT txs sort_key reverse = Ret r ->
  key_is sort_key "date" = false
  \/ Forall (fun t => strptime (Float64.date t) <> None) txs.
Proof.
  intro H.
  destruct (key_is sort_key "date") eqn:Ed; [right|now left].
  unfold LT, Float64.list_transactions, sorted in H. rewrite Ed in H.
  destruct (mapM (fun t => Float64.to_dt strptime (Float64.date t)) txs)
    as [ks|e] eqn:Em; [|discriminate].
  apply Forall_forall. intros t Ht.
  destruct (mapM_Ret_inv _ _ _ Em t Ht) as [y Hy].
  unfold Float64.to_dt in Hy.
  destruct (strptime (Float64.date t)); congruence.
Qed.

Lemma float_list_transactions_Ret_inv (txs r : list Float64.Transaction)
    (sort_key : option string) (reverse : bool) :
  LT txs sort_key reverse = Ret r ->
  r = sort_with (klt sort_key) reverse txs.
Proof.
  intro H.
  pose proof (float_list_transactions_Ret_ok _ _ _ _ H) as Hok.
  rewrite (float_list_transactions_returns txs sort_key reverse Hok) in H.
  congruence.
Qed.

(** Without NaN among the keys the result is the stable sort under an
    order of all records. *)
Lemma float_sort_total (txs : list Float64.Transaction)
    (sort_key : option string) (reverse : bool) :
  ~ Float64.nan_keys sort_key txs ->
  sort_with (klt sort_key) reverse txs
  = sort_with (klt' sort_key) reverse txs.
Proof.
  intro Hn. apply sort_with_agree. now apply key_lt_agree.
Qed.

Lemma float_list_transactions_filter (p : Float64.Transaction -> bool)
    (txs r : list Float64.Transaction) (sort_key : option string)
    (reverse : bool) :
  ~ Float64.nan_keys sort_key txs ->
  LT txs sort_key reverse = Ret r ->
  LT (filter p txs) sort_key reverse = Ret (filter p r).
Proof.
  intros Hn H.
  pose proof (float_list_transactions_Ret_ok _ _ _ _ H) as Hok.
  apply float_list_transactions_Ret_inv in H. subst r.
  assert (Hn' : ~ Float64.nan_keys sort_key (filter p txs)).
  { intros [E Hex]. apply Hn. split; [exact E|].
    apply Exists_exists in Hex. destruct Hex as (t & Ht & N).
    apply filter_In in Ht. apply Exists_exists. exists t. tauto. }
  rewrite (float_sort_total txs sort_key reverse Hn).
  rewrite (sort_with_filter _ (key_lt_total_swo sort_key)).
  rewrite <- (float_sort_total (filter p txs) sort_key reverse Hn').
  apply float_list_transactions_returns.
  destruct Hok as [Hk|Hall]; [now left|right].
  rewrite Forall_forall in *. intros t Ht. apply Hall.
  apply filter_In in Ht. tauto.
Qed.

End FloatListTransactions.

(** C7, as amended.  Without a sort key the records come back in ascending
    order of id.  For every sort key and both values of [reverse] the
    result holds the same records.  When the amounts are not the sort key,
    or no amount is NaN, the result is in ascending order of the key, or in
    descending order with [reverse], and in both cases the records with the
    key of a record of the collection keep their original relative order;
    so the result with [reverse] is the reversal of the result without it
    when no two records have the same key, and not in general. *)
Theorem list_transactions_order (strptime : string -> option datetime)
    (lower : string -> string) (txs : list Float64.Transaction) :
  (exists r, Float64.list_transactions strptime lower txs None false = Ret r
             /\ Permutation r txs
             /\ StronglySorted
                  (fun a b => (Float64.id a <= Float64.id b)%Z) r)
  /\ (forall sort_key reverse r,
        Float64.list_transactions strptime lower txs sort_key reverse = Ret r ->
        Permutation r txs)
  /\ (forall sort_key reverse r,
        Float64.list_transactions strptime lower txs sort_key reverse = Ret r ->
        ~ Float64.nan_keys sort_key txs ->
        (if reverse
         then descending (Float64.key_lt strptime lower sort_key) r
         else ascending (Float64.key_lt strptime lower sort_key) r)
        /\ forall t, In t txs ->
             filter (Float64.same_key strptime lower sort_key t) r
             = filter (Float64.same_key strptime lower sort_key t) txs)
  /\ (forall sort_key r,
        ~ Float64.nan_keys sort_key txs ->
        distinct_keys (Float64.key_lt strptime lower sort_key) txs ->
        Float64.list_transactions strptime lower txs sort_key false = Ret r ->
        Float64.list_transactions strptime lower txs sort_key true
        = Ret (rev r)).
Proof.
  assert (Hperm : forall sort_key reverse r,
            Float64.list_transactions strptime lower txs sort_key reverse
            = Ret r -> Permutation r txs).
  { intros sort_key reverse r H.
    apply float_list_transactions_Ret_inv in H. subst r.
    apply sort_with_perm. }
  assert (Hord : forall sort_key reverse r,
            Float64.list_transactions strptime lower txs sort_key reverse
            = Ret r ->
            ~ Float64.nan_keys sort_key txs ->
            (if reverse
             then descending (Float64.key_lt strptime lower sort_key) r
             else ascending (Float64.key_lt strptime lower sort_key) r)
            /\ forall t, In t txs ->
                 filter (Float64.same_key strptime lower sort_key t) r
                 = filter (Float64.same_key strptime lower sort_key t) txs).
  { intros sort_key reverse r H Hn.
    pose proof (Hperm _ _ _ H) as HP.
    apply float_list_transactions_Ret_inv in H.
    rewrite (float_sort_total strptime lower txs sort_key reverse Hn) in H.
    pose proof (key_lt_agree strptime lower sort_key txs Hn) as Hag.
    assert (Hin : forall a, In a r -> In a txs)
      by (intros a Ha; eapply Permutation_in; eassumption).
    split.
    - pose proof (sort_with_ordered _ (key_lt_total_swo strptime lower
                                         sort_key) reverse txs) as Hs.
      rewrite <- H in Hs.
      destruct reverse; unfold descending, ascending in *;
        (eapply StronglySorted_agree; [|exact Hs]);
        intros a b Ha Hb Hab; simpl in *;
        rewrite Hag; auto.
    - intros t Ht.
      pose proof (sort_with_stable _ (key_lt_total_swo strptime lower
                                        sort_key) reverse t txs) as Hst.
      rewrite <- H in Hst.
      rewrite (filter_ext_in (Float64.same_key strptime lower sort_key t)
                 (fun y => negb (key_lt_total strptime lower sort_key y t)
                           && negb (key_lt_total strptime lower sort_key t y))
                 r).
      + rewrite (filter_ext_in
                   (Float64.same_key strptime lower sort_key t)
                   (fun y => negb (key_lt_total strptime lower sort_key y t)
                             && negb (key_lt_total strptime lower sort_key
                                        t y))
                   txs).
        * exact Hst.
        * intros y Hy. unfold Float64.same_key.
          rewrite !Hag by assumption. apply andb_comm.
      + intros y Hy. unfold Float64.same_key.
        rewrite !Hag by auto. apply andb_comm. }
  split; [|split; [exact Hperm|split; [exact Hord|]]].
  - assert (Hn : ~ Float64.nan_keys None txs)
      by (intros [E _]; discriminate).
    assert (H : Float64.list_transactions strptime lower txs None false
                = Ret (sort_with (Float64.key_lt strptime lower None) false
                         txs)).
    { apply float_list_transactions_returns. now left. }
    eexists. split; [exact H|]. split; [exact (Hperm _ _ _ H)|].
    destruct (Hord _ _ _ H Hn) as [Hs _].
    eapply StronglySorted_weaken; [|exact Hs].
    intros a b Hab. simpl in Hab. unfold Float64.key_lt in Hab. simpl in Hab.
    apply Z.ltb_ge in Hab. exact Hab.
  - intros sort_key r Hn Hd H.
    pose proof (float_list_transactions_Ret_ok _ _ _ _ _ _ H) as Hok.
    apply float_list_transactions_Ret_inv in H. subst r.
    rewrite (float_list_transactions_returns strptime lower txs sort_key
               true Hok).
    f_equal.
    rewrite !(float_sort_total strptime lower txs sort_key _ Hn).
    apply (sort_with_reverse_distinct _
             (key_lt_total_swo strptime lower sort_key)).
    unfold distinct_keys in *.
    eapply ForallOrdPairs_agree; [|exact Hd].
    intros a b Ha Hb. simpl.
    now rewrite !(key_lt_agree strptime lower sort_key txs Hn) by assumption.
Qed.

Lemma list_transactions_order_witness :
  ~ Float64.nan_keys (Some "amount") Float64.txs_ties
  /\ exists r,
       Float64.list_transactions strptime_iso lower Float64.txs_ties
         (Some "amount") true = Ret r
       /\ descending (Float64.key_lt strptime_iso lower (Some "amount")) r.
Proof.
  assert (Hn : ~ Float64.nan_keys (Some "amount") Float64.txs_ties).
  { intros [_ H]. repeat (inversion H as [? ? N|? ? H']; subst;
                          [discriminate N|clear H; rename H' into H]).
    inversion H. }
  split; [exact Hn|].
  eexists. split; [reflexivity|].
  exact (proj1 (proj1 (proj2 (proj2 (list_transactions_order strptime_iso
                                       lower Float64.txs_ties)))
                  (Some "amount") true _ eq_refl Hn)).
Defined.

(** C7, third part as stated, on two salaries of 3000.0 (ids 1 and 3) and
    an expense of 45.2 (id 2), sorted by amount: with [reverse=True] the
    salaries keep their order of entry, 1 before 3, while the reversal of
    the ascending result 2, 1, 3 has 3 before 1. *)
Lemma list_transactions_reverse_not_reversal :
  exists r,
    Float64.list_transactions strptime_iso lower Float64.txs_ties
      (Some "amount") false = Ret r
    /\ map Float64.id r = [2; 1; 3]%Z
    /\ (exists r',
          Float64.list_transactions strptime_iso lower Float64.txs_ties
            (Some "amount") true = Ret r'
          /\ map Float64.id r' = [1; 3; 2]%Z)
    /\ Float64.list_transactions strptime_iso lower Float64.txs_ties
         (Some "amount") true
       <> Ret (rev r).
Proof.
  eexists. split; [vm_compute; reflexivity|].
  split; [reflexivity|]. split.
  - eexists. split; [vm_compute; reflexivity|reflexivity].
  - vm_compute. discriminate.
Qed.

(** X27: filtering and sorting commute: when a listing of a collection
    returns, and the amounts are not the sort key or none of them is NaN,
    the listing of the filtered collection returns the filtered listing,
    for the filter by expense threshold, by category and by keyword. *)
Theorem list_transactions_commutes_with_filters
    (strptime : string -> option datetime) (lower : string -> string)
    (txs r : list Float64.Transaction) (sort_key : option string)
    (reverse : bool)
    (Hnan : ~ Float64.nan_keys sort_key txs)
    (H : Float64.list_transactions strptime lower txs sort_key reverse
         = Ret r) :
  (forall threshold,
     Float64.list_transactions strptime lower
       (Float64.filter_expenses_over txs threshold) sort_key reverse
     = Ret (Float64.filter_expenses_over r threshold))
  /\ (forall c,
        Float64.list_transactions strptime lower
          (Float64.filter_by_category lower txs c) sort_key reverse
        = Ret (Float64.filter_by_category lower r c))
  /\ (forall kw,
        Float64.list_transactions strptime lower
          (Float64.search_transactions lower txs kw) sort_key reverse
        = Ret (Float64.search_transactions lower r kw)).
Proof.
  split; [|split]; intro x.
  - now apply float_list_transactions_filter.
  - now apply float_list_transactions_filter.
  - now apply float_list_transactions_filter.
Qed.

Lemma list_transactions_commutes_with_filters_witness :
  exists r,
    Float64.list_transactions strptime_iso lower Float64.txs_ties
      (Some "amount") true = Ret r
    /\ Float64.list_transactions strptime_iso lower
         (Float64.filter_expenses_over Float64.txs_ties 40%float)
         (Some "amount") true
       = Ret (Float64.filter_expenses_over r 40%float).
Proof.
  assert (Hn : ~ Float64.nan_keys (Some "amount") Float64.txs_ties).
  { intros [_ H]. repeat (inversion H as [? ? N|? ? H']; subst;
                          [discriminate N|clear H; rename H' into H]).
    inversion H. }
  eexists. split; [reflexivity|].
  exact (proj1 (list_transactions_commutes_with_filters strptime_iso lower
                  Float64.txs_ties _ (Some "amount") true Hn eq_refl)
           40%float).
Defined.

(** ** balance_summary on doubles *)

Lemma filter_app_cons {T : Type} (p : T -> bool) (l1 l2 : list T) (t : T) :
  filter p (l1 ++ t :: l2)
  = (filter p l1 ++ (if p t then [t] else []) ++ filter p l2)%list.
Proof.
  rewrite filter_app. simpl. now destruct (p t).
Qed.




(** C9, as amended.  A record that is neither an income nor an expense
    leaves the numbers summed for the income and for both sums of the
    expenses as they are.  When its amount is negative, its magnitude is one
    more number, at the place of the record, among those summed in
    [other_neg_expenses], and the expenses are (P + N) + O' when that sum
    O' is not zero, in the additions of the doubles; when its amount is not
    negative, or is NaN, the result is the one without the record. *)
Theorem balance_summary_other_type (sum : list float -> float)
    (l1 l2 : list Float64.Transaction) (t : Float64.Transaction)
    (Hinc : Float64.ttype t <> "income")
    (Hexp : Float64.ttype t <> "expense") :
  Float64.income_amounts (l1 ++ t :: l2) = Float64.income_amounts (l1 ++ l2)
  /\ Float64.expense_amounts_pos (l1 ++ t :: l2)
     = Float64.expense_amounts_pos (l1 ++ l2)
  /\ Float64.expense_magnitudes_neg (l1 ++ t :: l2)
     = Float64.expense_magnitudes_neg (l1 ++ l2)
  /\ Float64.other_magnitudes_neg (l1 ++ l2)
     = (Float64.other_magnitudes_neg l1 ++ Float64.other_magnitudes_neg l2)%list
  /\ (PrimFloat.ltb (Float64.amount t) 0 = true ->
      Float64.other_magnitudes_neg (l1 ++ t :: l2)
      = (Float64.other_magnitudes_neg l1
         ++ PrimFloat.opp (Float64.amount t)
            :: Float64.other_magnitudes_neg l2)%list
      /\ let I := sum (Float64.income_amounts (l1 ++ l2)) in
         let P := sum (Float64.expense_amounts_pos (l1 ++ l2)) in
         let N := sum (Float64.expense_magnitudes_neg (l1 ++ l2)) in
         let O' := sum (Float64.other_magnitudes_neg l1
                        ++ PrimFloat.opp (Float64.amount t)
                           :: Float64.other_magnitudes_neg l2)%list in
         let E := if Float64.truthy O'
                  then PrimFloat.add (PrimFloat.add P N) O'
                  else PrimFloat.add P N in
         Float64.balance_summary sum (l1 ++ t :: l2)
         = (I, E, PrimFloat.sub I E))
  /\ (PrimFloat.ltb (Float64.amount t) 0 = false ->
      Float64.balance_summary sum (l1 ++ t :: l2)
      = Float64.balance_summary sum (l1 ++ l2)).
Proof.
  apply String.eqb_neq in Hinc, Hexp.
  assert (Ei : Float64.income_amounts (l1 ++ t :: l2)
               = Float64.income_amounts (l1 ++ l2)).
  { unfold Float64.income_amounts.
    rewrite filter_app_cons, filter_app, Hinc. reflexivity. }
  assert (Ep : Float64.expense_amounts_pos (l1 ++ t :: l2)
               = Float64.expense_amounts_pos (l1 ++ l2)).
  { unfold Float64.expense_amounts_pos.
    rewrite filter_app_cons, filter_app, Hexp. reflexivity. }
  assert (En : Float64.expense_magnitudes_neg (l1 ++ t :: l2)
               = Float64.expense_magnitudes_neg (l1 ++ l2)).
  { unfold Float64.expense_magnitudes_neg.
    rewrite filter_app_cons, filter_app, Hexp. reflexivity. }
  assert (Eo : forall b, PrimFloat.ltb (Float64.amount t) 0 = b ->
            Float64.other_magnitudes_neg (l1 ++ t :: l2)
            = (Float64.other_magnitudes_neg l1
               ++ (if b then [PrimFloat.opp (Float64.amount t)] else [])
               ++ Float64.other_magnitudes_neg l2)%list).
  { intros b Hb. unfold Float64.other_magnitudes_neg.
    rewrite filter_app_cons, Hinc, Hb, !map_app. simpl.
    now destruct b. }
  assert (Eo0 : Float64.other_magnitudes_neg (l1 ++ l2)
                = (Float64.other_magnitudes_neg l1
                   ++ Float64.other_magnitudes_neg l2)%list).
  { unfold Float64.other_magnitudes_neg. now rewrite filter_app, map_app. }
  split; [exact Ei|]. split; [exact Ep|]. split; [exact En|].
  split; [exact Eo0|]. split.
  - intro Hneg. split; [exact (Eo true Hneg)|].
    unfold Float64.balance_summary.
    rewrite Ei, Ep, En, (Eo true Hneg). reflexivity.
  - intro Hneg. unfold Float64.balance_summary.
    rewrite Ei, Ep, En, (Eo false Hneg), Eo0. reflexivity.
Qed.

Lemma balance_summary_other_type_witness :
  Float64.balance_summary Float64.left_sum
    (Float64.txs_before_transfer ++ Float64.the_transfer :: [])
  = (0, 1.2000000000000002, -1.2000000000000002)%float.
Proof.
  assert (Hi : Float64.ttype Float64.the_transfer <> "income")
    by (simpl; discriminate).
  assert (He : Float64.ttype Float64.the_transfer <> "expense")
    by (simpl; discriminate).
  assert (Hn : PrimFloat.ltb (Float64.amount Float64.the_transfer) 0 = true)
    by reflexivity.
  rewrite (proj2 (proj1 (proj2 (proj2 (proj2 (proj2
             (balance_summary_other_type Float64.left_sum
                Float64.txs_before_transfer [] Float64.the_transfer
                Hi He))))) Hn)).
  reflexivity.
Defined.

(** C9 as stated, on an expense of -0.10 followed by a transfer of -1.00:
    without the transfer the expenses are 0.2, with it they are
    0.1 + (0.1 + 1.0) = 1.2000000000000002, which is not the 0.2 + 1.0 = 1.2
    that adding the magnitude of the transfer once would give. *)
Lemma balance_summary_magnitude_not_exact :
  Float64.ttype Float64.the_transfer = "transfer"
  /\ PrimFloat.opp (Float64.amount Float64.the_transfer) = 1%float
  /\ snd (fst (Float64.balance_summary Float64.left_sum
                 Float64.txs_before_transfer))
     = 0.2%float
  /\ snd (fst (Float64.balance_summary Float64.left_sum
                 (Float64.txs_before_transfer ++ [Float64.the_transfer])))
     = 1.2000000000000002%float
  /\ PrimFloat.add 0.2 1 = 1.2%float
  /\ PrimFloat.eqb 1.2000000000000002 1.2 = false.
Proof.
  repeat split; reflexivity.
Qed.

(** ** Searching and filtering on doubles *)

(** X8: a search with a keyword whose lower-case form is the empty text, as
    that of the empty keyword is, returns the whole collection; keywords
    with the same lower-case form give the same result; and every record
    that [filter_by_category] returns for a text is also returned by a
    search for that text.  This holds for whatever [str.lower] computes. *)
Theorem search_transactions_keyword (lower : string -> string)
    (txs : list Float64.Transaction) :
  (forall kw, lower kw = EmptyString ->
     Float64.search_transactions lower txs kw = txs)
  /\ (forall kw kw', lower kw = lower kw' ->
        Float64.search_transactions lower txs kw
        = Float64.search_transactions lower txs kw')
  /\ (forall c t, In t (Float64.filter_by_category lower txs c) ->
                  In t (Float64.search_transactions lower txs c)).
Proof.
  split; [|split].
  - intros kw Hkw. unfold Float64.search_transactions. rewrite Hkw.
    induction txs as [|t l IH]; simpl; [reflexivity|].
    now rewrite str_in_empty, IH.
  - intros kw kw' H. unfold Float64.search_transactions. now rewrite H.
  - intros c t.
    unfold Float64.filter_by_category, Float64.search_transactions.
    rewrite !filter_In. intros [Ht E]. split; [exact Ht|].
    apply String.eqb_eq in E. rewrite E, str_in_refl. apply orb_true_r.
Qed.

Lemma search_transactions_keyword_witness :
  lower EmptyString = EmptyString
  /\ Float64.search_transactions lower Float64.txs_ties EmptyString
     = Float64.txs_ties.
Proof.
  assert (H : lower EmptyString = EmptyString) by reflexivity.
  split; [exact H|].
  exact (proj1 (search_transactions_keyword lower Float64.txs_ties)
           EmptyString H).
Defined.

(** X9: [filter_by_category] selects, in order, the records whose category
    has the lower-case form of the wanted one; a wanted category with the
    same lower-case form gives the same result; and filtering the result
    for a category with another lower-case form leaves nothing.  This holds
    for whatever [str.lower] computes. *)
Theorem filter_by_category_selects (lower : string -> string)
    (txs : list Float64.Transaction) (c : string) :
  Selects (fun t => lower (Float64.category t) = lower c) txs
          (Float64.filter_by_category lower txs c)
  /\ (forall c', lower c' = lower c ->
        Float64.filter_by_category lower txs c'
        = Float64.filter_by_category lower txs c)
  /\ (forall c', lower c' <> lower c ->
        Float64.filter_by_category lower
          (Float64.filter_by_category lower txs c) c' = []).
Proof.
  split; [|split].
  - apply filter_Selects. intro t. apply String.eqb_eq.
  - intros c' H. unfold Float64.filter_by_category. now rewrite H.
  - intros c' H. unfold Float64.filter_by_category. apply filter_none.
    intros t Ht. apply filter_In in Ht. destruct Ht as [_ E].
    apply String.eqb_eq in E. apply String.eqb_neq. congruence.
Qed.

(** X10: filtering the result of a threshold with a threshold that is not
    lower gives the result of that second threshold; and a negative
    threshold lets through exactly the expenses whose amount is not NaN. *)
Theorem filter_expenses_over_thresholds (txs : list Float64.Transaction)
    (low high : float) :
  (PrimFloat.leb low high = true ->
   Float64.filter_expenses_over (Float64.filter_expenses_over txs low) high
   = Float64.filter_expenses_over txs high)
  /\ (PrimFloat.ltb low 0 = true ->
      Float64.filter_expenses_over txs low
      = filter (fun t => Float64.is_expense t
                         && negb (PrimFloat.is_nan (Float64.amount t)))
               txs).
Proof.
  split.
  - intro H. unfold Float64.filter_expenses_over.
    apply filter_filter_implies.
    intros t. rewrite !andb_true_iff. intros [E L].
    split; [exact E|]. eapply float_leb_ltb_trans; eassumption.
  - intro H. unfold Float64.filter_expenses_over. apply filter_ext.
    intro t. unfold Float64.is_expense. f_equal.
    destruct (PrimFloat.is_nan (Float64.amount t)) eqn:N; simpl.
    + apply Bool.not_true_iff_false. rewrite ltb_rank.
      rewrite is_nan_abs, N. intros (_ & D & _). discriminate.
    + now apply float_abs_above_negative.
Qed.

Lemma filter_expenses_over_thresholds_witness :
  PrimFloat.leb 40 100 = true
  /\ Float64.filter_expenses_over
       (Float64.filter_expenses_over Float64.txs_ties 40) 100
     = Float64.filter_expenses_over Float64.txs_ties 100.
Proof.
  assert (H : PrimFloat.leb 40 100 = true) by reflexivity.
  split; [exact H|].
  exact (proj1 (filter_expenses_over_thresholds Float64.txs_ties 40 100) H).
Defined.

(** ** monthly_spending on doubles *)

Lemma dict_set_new (d : Float64.dict) (k : string) (v : float) :
  ~ In k (map fst d) -> Float64.dict_set d k v = (d ++ [(k, v)])%list.
Proof.
  induction d as [|[k' v'] d IH]; simpl; intro H; [reflexivity|].
  destruct (String.eqb_spec k' k) as [E|E]; [tauto|].
  rewrite IH; [reflexivity|tauto].
Qed.

Lemma dict_set_keys (d : Float64.dict) (k : string) (v : float) :
  In k (map fst d) -> map fst (Float64.dict_set d k v) = map fst d.
Proof.
  induction d as [|[k' v'] d IH]; simpl; intro H; [tauto|].
  destruct (String.eqb_spec k' k) as [E|E]; simpl; [reflexivity|].
  rewrite IH; [reflexivity|]. destruct H; [contradiction|assumption].
Qed.

Lemma dict_set_In_keys (d : Float64.dict) (k k' : string) (v : float) :
  In k' (map fst (Float64.dict_set d k v)) <-> k' = k \/ In k' (map fst d).
Proof.
  destruct (in_dec string_dec k (map fst d)) as [H|H].
  - rewrite (dict_set_keys d k v H). split; [tauto|].
    intros [-> | H']; assumption.
  - rewrite (dict_set_new d k v H), map_app, in_app_iff. simpl.
    split; [intros [H' | [<- | []]]|intros [-> | H']]; auto.
Qed.

Lemma dict_set_NoDup (d : Float64.dict) (k : string) (v : float) :
  NoDup (map fst d) -> NoDup (map fst (Float64.dict_set d k v)).
Proof.
  intro Hd. destruct (in_dec string_dec k (map fst d)) as [H|H].
  - now rewrite (dict_set_keys d k v H).
  - rewrite (dict_set_new d k v H), map_app. simpl.
    eapply Permutation_NoDup; [apply Permutation_cons_append|].
    now constructor.
Qed.

Lemma dict_get_set (d : Float64.dict) (k k' : string) (v default : float) :
  Float64.dict_get (Float64.dict_set d k v) k' default
  = if String.eqb k k' then v else Float64.dict_get d k' default.
Proof.
  induction d as [|[k0 v0] d IH]; simpl.
  - reflexivity.
  - destruct (String.eqb_spec k0 k) as [E|E]; simpl.
    + subst k0. destruct (String.eqb k k'); reflexivity.
    + destruct (String.eqb_spec k0 k') as [E'|E'].
      * destruct (String.eqb_spec k k'); [congruence|reflexivity].
      * exact IH.
Qed.

Lemma dict_get_In (d : Float64.dict) (k : string) (v default : float) :
  NoDup (map fst d) -> In (k, v) d -> Float64.dict_get d k default = v.
Proof.
  induction d as [|[k0 v0] d IH]; simpl; intros Hd Hin; [tauto|].
  inversion Hd as [|? ? Hn Hd']; subst.
  destruct Hin as [E|Hin].
  - inversion E; subst. now rewrite String.eqb_refl.
  - destruct (String.eqb_spec k0 k) as [E|E].
    + subst k0. exfalso. apply Hn. apply (in_map fst _ _ Hin).
    + now apply IH.
Qed.

Lemma dict_keys_In (d : Float64.dict) (a b : string * float) :
  NoDup (map fst d) -> In a d -> In b d -> fst a = fst b -> a = b.
Proof.
  intros Hd Ha Hb E. destruct a as [ka va], b as [kb vb]. simpl in E.
  subst kb. f_equal.
  rewrite <- (dict_get_In d ka va 0%float Hd Ha).
  now rewrite <- (dict_get_In d ka vb 0%float Hd Hb).
Qed.

Lemma dict_of_items_NoDup_acc (items : list (string * float))
    (d : Float64.dict) :
  NoDup (map fst (d ++ items)) ->
  fold_left (fun d kv => Float64.dict_set d (fst kv) (snd kv)) items d
  = (d ++ items)%list.
Proof.
  revert d. induction items as [|[k v] items IH]; intros d H; simpl.
  - now rewrite app_nil_r.
  - rewrite dict_set_new.
    + rewrite IH, <- app_assoc; [reflexivity|].
      now rewrite <- app_assoc.
    + rewrite map_app in H. simpl in H.
      apply NoDup_remove_2 in H. intro Hin. apply H.
      apply in_or_app. now left.
Qed.

Lemma dict_of_items_NoDup (items : list (string * float)) :
  NoDup (map fst items) -> Float64.dict_of_items items = items.
Proof. intro H. apply (dict_of_items_NoDup_acc items []). exact H. Qed.

Lemma monthly_fold_keys (txs : list Float64.Transaction) (d : Float64.dict)
    (m : string) :
  In m (map fst (fold_left Float64.monthly_step txs d)) <->
  In m (map fst d)
  \/ exists t, In t txs /\ Float64.ttype t = "expense"
               /\ substring 0 7 (Float64.date t) = m.
Proof.
  revert d. induction txs as [|t txs IH]; intro d; simpl.
  - split; [auto|]. intros [H|(t & [] & _)]. exact H.
  - rewrite IH. unfold Float64.monthly_step.
    destruct (String.eqb_spec (Float64.ttype t) "expense") as [E|E]; simpl.
    + rewrite dict_set_In_keys. split.
      * intros [[-> | H]|(t' & H1 & H2)]; eauto 7.
      * intros [H|(t' & [<- | H1] & H2 & H3)]; eauto 7.
    + split.
      * intros [H|(t' & H1 & H2)]; eauto 7.
      * intros [H|(t' & [<- | H1] & H2 & H3)]; eauto 7. contradiction.
Qed.

Lemma monthly_fold_NoDup (txs : list Float64.Transaction) (d : Float64.dict) :
  NoDup (map fst d) -> NoDup (map fst (fold_left Float64.monthly_step txs d)).
Proof.
  revert d. induction txs as [|t txs IH]; intros d H; simpl; [exact H|].
  apply IH. unfold Float64.monthly_step.
  destruct (negb (String.eqb (Float64.ttype t) "expense")); [exact H|].
  now apply dict_set_NoDup.
Qed.

(** The total of a month is built by adding the absolute amounts of its
    expenses one after the other, in the order of the collection. *)
Lemma monthly_fold_get (txs : list Float64.Transaction) (d : Float64.dict)
    (m : string) :
  Float64.dict_get (fold_left Float64.monthly_step txs d) m 0%float
  = fold_left PrimFloat.add (Float64.month_expenses m txs)
      (Float64.dict_get d m 0%float).
Proof.
  revert d. induction txs as [|t txs IH]; intro d; [reflexivity|].
  cbn [fold_left]. rewrite IH.
  unfold Float64.month_expenses, Float64.monthly_step. cbn [filter].
  destruct (String.eqb (Float64.ttype t) "expense"); cbn [negb andb].
  - rewrite dict_get_set.
    destruct (String.eqb_spec (substring 0 7 (Float64.date t)) m) as [E|E].
    + subst m. reflexivity.
    + reflexivity.
  - reflexivity.
Qed.

Lemma monthly_fold_filter (p : Float64.Transaction -> bool)
    (txs : list Float64.Transaction) (d : Float64.dict) :
  (forall t, Float64.is_expense t = true -> p t = true) ->
  fold_left Float64.monthly_step (filter p txs) d
  = fold_left Float64.monthly_step txs d.
Proof.
  intro Hp. revert d. induction txs as [|t txs IH]; intro d; simpl.
  - reflexivity.
  - destruct (p t) eqn:Ep; simpl.
    + apply IH.
    + rewrite IH. f_equal. unfold Float64.monthly_step.
      destruct (String.eqb (Float64.ttype t) "expense") eqn:E; [|reflexivity].
      unfold Float64.is_expense in Hp. rewrite (Hp t E) in Ep. discriminate.
Qed.

(** On a dictionary's items, whose keys differ, [<] on tuples is [<] on the
    keys: the values are never compared. *)
Lemma item_ltb_keys (d : Float64.dict) (a b : string * float) :
  NoDup (map fst d) -> In a d -> In b d ->
  Float64.item_ltb a b = String.ltb (fst a) (fst b).
Proof.
  intros Hd Ha Hb. unfold Float64.item_ltb.
  destruct (String.eqb_spec (fst a) (fst b)) as [E|E]; [|reflexivity].
  rewrite (dict_keys_In d a b Hd Ha Hb E).
  rewrite (lt_irrefl _ string_ltb_swo).
  destruct (PrimFloat.ltb (snd b) (snd b)) eqn:L; [|reflexivity].
  now rewrite (float_ltb_asym _ _ L) in L.
Qed.

Lemma sorted_keys_strict (s : list (string * float)) :
  NoDup (map fst s) ->
  ascending (fun a b => String.ltb (fst a) (fst b)) s ->
  StronglySorted (fun a b => String.ltb (fst a) (fst b) = true) s.
Proof.
  unfold ascending. intros Hnd Hs.
  induction Hs as [|x s Hs IH Hx]; [constructor|].
  simpl in Hnd. inversion Hnd as [|? ? Hn Hnd']; subst.
  constructor; [now apply IH|].
  rewrite Forall_forall in *. intros y Hy.
  specialize (Hx y Hy). simpl in Hx.
  assert (Hne : fst x <> fst y).
  { intro E. apply Hn. rewrite E. now apply in_map. }
  destruct (string_ltb_total (fst x) (fst y) Hne); congruence.
Qed.

(** The sorted items are the totals, reordered. *)
Lemma monthly_spending_perm (txs : list Float64.Transaction) :
  Permutation (Float64.monthly_spending txs) (Float64.monthly_totals txs)
  /\ StronglySorted (fun a b => String.ltb (fst a) (fst b) = true)
       (Float64.monthly_spending txs).
Proof.
  unfold Float64.monthly_spending.
  rewrite (sort_decorated_elts Float64.item_ltb (fun kv => kv)).
  set (d := Float64.monthly_totals txs).
  assert (Hd : NoDup (map fst d)) by (apply monthly_fold_NoDup; constructor).
  rewrite (sort_with_agree _ (fun a b => String.ltb (fst a) (fst b)) false d)
    by (intros a b Ha Hb; now apply (item_ltb_keys d)).
  set (s := sort_with _ false d).
  assert (HP : Permutation s d) by apply sort_with_perm.
  assert (Hs : NoDup (map fst s)).
  { eapply Permutation_NoDup; [|exact Hd].
    apply Permutation_map. now symmetry. }
  rewrite (dict_of_items_NoDup s Hs). split; [exact HP|].
  apply sorted_keys_strict; [exact Hs|].
  exact (sort_with_ordered _ (swo_on_key String.ltb fst string_ltb_swo)
           false d).
Qed.

(** C6: the result is in strictly ascending order of its keys; its keys are
    the first seven characters of the dates of the expense records; each key
    is mapped to the sum of the absolute amounts of the expense records
    whose date starts with it, added one after the other in the order of
    the collection; and the records that are not expenses, the incomes
    included whatever their sign, have no effect on it. *)
Theorem monthly_spending_by_month (txs : list Float64.Transaction) :
  StronglySorted (fun a b => String.ltb (fst a) (fst b) = true)
    (Float64.monthly_spending txs)
  /\ (forall m, In m (map fst (Float64.monthly_spending txs)) <->
                exists t, In t txs /\ Float64.ttype t = "expense"
                          /\ substring 0 7 (Float64.date t) = m)
  /\ (forall m v, In (m, v) (Float64.monthly_spending txs) ->
                  v = fold_left PrimFloat.add
                        (map (fun t => PrimFloat.abs (Float64.amount t))
                           (filter
                              (fun t =>
                                 String.eqb (Float64.ttype t) "expense"
                                 && String.eqb
                                      (substring 0 7 (Float64.date t)) m)
                              txs))
                        0%float)
  /\ Float64.monthly_spending
       (filter (fun t => negb (String.eqb (Float64.ttype t) "income")) txs)
     = Float64.monthly_spending txs.
Proof.
  destruct (monthly_spending_perm txs) as [HP Hs].
  split; [exact Hs|]. split; [|split].
  - intro m. split.
    + intro H.
      apply (Permutation_in _ (Permutation_map fst HP)) in H.
      apply monthly_fold_keys in H. destruct H as [[]|H]. exact H.
    + intro H.
      apply (Permutation_in _ (Permutation_map fst (Permutation_sym HP))).
      apply monthly_fold_keys. now right.
  - intros m v H.
    apply (Permutation_in _ HP) in H.
    assert (Hd : NoDup (map fst (Float64.monthly_totals txs)))
      by (apply monthly_fold_NoDup; constructor).
    rewrite <- (dict_get_In _ m v 0%float Hd H).
    unfold Float64.monthly_totals. rewrite monthly_fold_get. reflexivity.
  - unfold Float64.monthly_spending, Float64.monthly_totals.
    rewrite monthly_fold_filter; [reflexivity|].
    intros t H. unfold Float64.is_expense in H. apply String.eqb_eq in H.
    now rewrite H.
Qed.

(** The totals of three expenses over two months. *)
Example monthly_spending_txs_months :
  Float64.monthly_spending Float64.txs_months
  = [("2025-01", 165.2%float); ("2025-02", 250%float)].
Proof. reflexivity. Qed.
